(** * Auto Runes: the client connector, the rune manager and the
      champion-select monitor of [auto_runes_v2.py]

    A shallow embedding of the three classes of [auto_runes_v2.py]:
    [LCUConnection] (the HTTP call to the League client), [RuneManager]
    (the rune catalogue, the validation of a scraped rune record and the
    create-or-update of a rune page) and [ChampionSelectMonitor] (the
    handler of champion-select events).

    Conventions.
    - Python [str] is [string]; [lower] is the ASCII case mapping, so the
      development speaks about ASCII text, which is what the catalogue and
      the client's champion names are made of.
    - Python [int] is [Z]; a [dict] read with [.get] is a record whose
      fields are [option]s ([None] when the key is absent).
    - [dict]s whose iteration order matters are association lists in
      declaration order; [self.rune_data] is a [gmap]; the [set] of
      processed action ids is a [gset].
    - The League client, the scraper and the HTTP transport are outside
      the program: the transport is the variable of a [Section], the
      client and the scraper are the methods of the class [Outside],
      and every call threads the state of that outside world.
    - [on_champion_locked] writes one line [Champion locked in: ...]
      to the success log each time it goes on to apply the runes; the
      handlers return these lines, so that they can be counted.
    - Events are handled one after the other, as one channel thread
      delivers them; the two [threading.Lock]s only serialise what the
      model already runs in sequence, so they do not appear. *)

From Stdlib Require Import ZArith Ascii String List Bool Lia.
From stdpp Require Import base option gmap strings list.

#[local] Set Warnings "-clear-no-such-hyp".

Local Open Scope string_scope.
Local Open Scope Z_scope.

(** ** Python string operations *)

Module PyStr.

(** [c.lower()] on one ASCII character: [A]..[Z] move to [a]..[z]. *)
Definition lower_ascii (c : ascii) : ascii :=
  let n := nat_of_ascii c in
  if ((65 <=? n)%nat && (n <=? 90)%nat)%bool then ascii_of_nat (n + 32) else c.

(** [s.lower()] *)
Fixpoint lower (s : string) : string :=
  match s with
  | EmptyString => EmptyString
  | String c s' => String (lower_ascii c) (lower s')
  end.

(** [s.startswith(p)] *)
Fixpoint startswith (s p : string) {struct p} : bool :=
  match p, s with
  | EmptyString, _ => true
  | String _ _, EmptyString => false
  | String a p', String b s' => (Ascii.eqb a b && startswith s' p')%bool
  end.

(** [needle in hay] on two [str]: [needle] occurs in [hay] as a
    contiguous run. *)
Fixpoint str_in (needle hay : string) : bool :=
  (startswith hay needle ||
   match hay with
   | EmptyString => false
   | String _ hay' => str_in needle hay'
   end)%bool.

(** Truthiness of an optional string read with [.get]: [None] and the
    empty string are falsy. *)
Definition truthy_str (o : option string) : bool :=
  match o with
  | Some (String _ _) => true
  | _ => false
  end.

End PyStr.

(** ** [dict]s that keep their declaration order *)

Module PyDict.

(** [d.get(key)] on a [dict] written as the list of its items. *)
Fixpoint get {V : Type} (d : list (string * V)) (key : string) : option V :=
  match d with
  | [] => None
  | (k, v) :: d' => if String.eqb k key then Some v else get d' key
  end.

(** [d.get(key, default)] *)
Definition get_default {V : Type} (d : list (string * V)) (key : string) (default : V) : V :=
  match get d key with
  | Some v => v
  | None => default
  end.

End PyDict.

(** ** [LCUConnection]: discovery of the client and the HTTP call *)

Module LCUConnection.

(** A process as [psutil.process_iter(['pid', 'name', 'cmdline'])]
    shows it. *)
Record process := {
  pid : Z;
  name : string;
  cmdline : list string
}.

(** The operating system at the time of a call. *)
Record os := {
  process_iter : list process;
  is_running : process -> bool
}.

(** The fields of an [LCUConnection] object. [headers] holds the text
    [riot:<token>] whose Base64 form is the [Authorization] header;
    [self.ws] belongs to the event channel and is not modelled. *)
Record t := {
  auth_token : option string;
  port : option string;
  process_ : option process;
  headers : option string;
  base_url : option string;
  connected : bool;
  ws_connected : bool
}.

(** [__init__] *)
Definition init : t := {|
  auth_token := None; port := None; process_ := None; headers := None;
  base_url := None; connected := false; ws_connected := false
|}.

Definition set_connected (b : bool) (self : t) : t := {|
  auth_token := auth_token self; port := port self;
  process_ := process_ self; headers := headers self;
  base_url := base_url self; connected := b;
  ws_connected := ws_connected self
|}.

Definition set_process (p : process) (self : t) : t := {|
  auth_token := auth_token self; port := port self;
  process_ := Some p; headers := headers self;
  base_url := base_url self; connected := connected self;
  ws_connected := ws_connected self
|}.

(** The text of [s] up to its first [=]. *)
Fixpoint until_equals (s : string) : string :=
  match s with
  | EmptyString => EmptyString
  | String c s' => if Ascii.eqb c "="%char then EmptyString else String c (until_equals s')
  end.

(** [x.split('=')[1]] for an [x] that holds an [=] (here it starts
    with [--remoting-auth-token=] or [--app-port=]): the text between
    the first [=] and the next. *)
Fixpoint split_equals_1 (x : string) : string :=
  match x with
  | EmptyString => EmptyString
  | String c x' => if Ascii.eqb c "="%char then until_equals x' else split_equals_1 x'
  end.

(** [next((x for x in cmdline if x.startswith(prefix)), None)] *)
Definition first_with_prefix (prefix : string) (cmdline : list string) : option string :=
  List.find (fun x => PyStr.startswith x prefix) cmdline.

(** The [for proc in psutil.process_iter(...)] loop of
    [find_league_client]. *)
Fixpoint scan_processes (procs : list process) (self : t) : bool * t :=
  match procs with
  | [] => (false, self)
  | proc :: rest =>
      if String.eqb (name proc) "LeagueClientUx.exe" then
        let self := set_process proc self in
        match first_with_prefix "--remoting-auth-token=" (cmdline proc),
              first_with_prefix "--app-port=" (cmdline proc) with
        | Some token_arg, Some port_arg =>
            let token := split_equals_1 token_arg in
            let port_value := split_equals_1 port_arg in
            (true,
             {| auth_token := Some token; port := Some port_value;
                process_ := process_ self;
                headers := Some ("riot:" +:+ token);
                base_url := Some ("https://127.0.0.1:" +:+ port_value);
                connected := true;
                ws_connected := ws_connected self |})
        | _, _ => scan_processes rest self
        end
      else scan_processes rest self
  end.

(** [find_league_client] *)
Definition find_league_client (o : os) (self : t) : bool * t :=
  if (connected self &&
      match process_ self with
      | Some p => is_running o p
      | None => false
      end)%bool
  then (true, self)
  else scan_processes (process_iter o) (set_connected false self).

(** The arguments of [requests.request]. *)
Record http_request {Json : Type} := {
  method : string;
  url : string;
  req_headers : option string;
  json : option Json;
  verify : bool
}.

(** [response.text] with what [response.json()] makes of it. A body
    that is the JSON text [null] decodes to [None], which [request]
    returns as it is. *)
Inductive response_text {Json : Type} :=
  | EmptyText                     (* [response.text] is empty *)
  | JsonText (j : Json)           (* the body decodes to [j], not [None] *)
  | NullText                      (* the body decodes to [None] *)
  | BadText.                      (* the body does not decode *)

(** What one call of [requests.request] does: it returns a response
    or raises a [requests.exceptions.RequestException] (connection
    refused, reset, TLS failure, ...). *)
Inductive http_outcome {Json : Type} :=
  | Response (status_code : Z) (text : @response_text Json)
  | RequestException.

Arguments http_request : clear implicits.
Arguments response_text : clear implicits.
Arguments http_outcome : clear implicits.

(** [f'{self.base_url}{endpoint}'] *)
Definition format_url (base : option string) (endpoint : string) : string :=
  default "None" base +:+ endpoint.

Section Request.
Context {Json Net : Type}.
(** [{}], and the network: a call takes it to its next state. *)
Variable empty_dict : Json.
Variable requests_request : http_request Json -> Net -> http_outcome Json * Net.

(** The first statement of [request]:
    [if not self.connected and not self.find_league_client()];
    [true] when the call goes ahead. *)
Definition ensure_connected (o : os) (self : t) : bool * t :=
  if connected self then (true, self) else find_league_client o self.

(** [response.raise_for_status()] raises [HTTPError], a
    [RequestException], on the statuses 400 to 599. *)
Definition raises_for_status (status_code : Z) : bool :=
  ((400 <=? status_code) && (status_code <? 600))%bool.

(** [request]. A body that does not decode makes [response.json()]
    raise [requests.exceptions.JSONDecodeError], a
    [RequestException] as well. *)
Definition request (o : os) (self : t) (net : Net)
    (method_ endpoint : string) (data : option Json) : option Json * t * Net :=
  let '(ready, self) := ensure_connected o self in
  if negb ready then (None, self, net)
  else
    let req := {| method := method_;
                  url := format_url (base_url self) endpoint;
                  req_headers := headers self;
                  json := data;
                  verify := false |} in
    match requests_request req net with
    | (Response status_code text, net') =>
        if status_code =? 404 then (None, self, net')
        else if raises_for_status status_code
        then (None, set_connected false self, net')
        else
          match text with
          | EmptyText => (Some empty_dict, self, net')
          | JsonText j => (Some j, self, net')
          | NullText => (None, self, net')
          | BadText => (None, set_connected false self, net')
          end
    | (RequestException, net') => (None, set_connected false self, net')
    end.
End Request.

End LCUConnection.

(** ** The client's JSON, as the program reads it *)

Module Lcu.

(** A rune page of [GET /lol-perks/v1/pages]; the program reads
    [p['name']] and [p['id']], which every page of the client has. *)
Record page := {
  page_id : Z;
  page_name : string
}.

(** The body of the [PUT] and of the [POST] of a page. *)
Record page_body := {
  body_name : string;
  primaryStyleId : Z;
  subStyleId : Z;
  selectedPerkIds : list Z;
  current : bool
}.

(** A non-null answer to a write: the empty object (what [request]
    returns for an empty body), or an object with at least one key,
    with or without an ['id']. *)
Inductive reply :=
  | EmptyDict
  | Dict (id : option Z).

(** [bool(result)] and ['id' in result] *)
Definition reply_truthy (r : reply) : bool :=
  match r with EmptyDict => false | Dict _ => true end.

Definition reply_id (r : reply) : option Z :=
  match r with EmptyDict => None | Dict id => id end.

(** A non-empty answer of [GET /lol-summoner/v1/current-summoner]. *)
Record summoner := { summonerId : option Z }.

(** A non-empty answer of
    [GET /lol-champions/v1/inventories/<summoner>/champions/<id>]. *)
Record champion_data := { champion_name : option string }.

(** One entry of [data['myTeam']]. *)
Record player := {
  player_summonerId : option Z;
  cellId : option Z
}.

(** One action of [data['actions']]. *)
Record action := {
  actorCellId : option Z;
  championId : option Z;
  action_id : option Z;           (* [action.get('id')] *)
  completed : option bool
}.

(** A non-empty [data] object of a champion-select event;
    [timer_phase] is [data.get('timer', {}).get('phase')]. *)
Record session := {
  timer_phase : option string;
  myTeam : list player;
  actions : list (list action)
}.

(** A decoded event. [data] is [None] when the key is absent or the
    object is empty ([not data]). *)
Inductive message :=
  | Short                         (* [len(message) < 3] *)
  | Event (uri : option string) (data : option session).

(** Truthiness of an optional flag read with [.get]. *)
Definition truthy_flag (o : option bool) : bool := default false o.

End Lcu.

(** ** [RuneManager]: catalogue, resolution of names, validation *)

Module RuneManager.

(** One entry of [self.rune_data]: the value stored under the role
    ["auto"], the only role the program writes or reads. *)
Record rune_setup := {
  primary_style : Z;
  sub_style : Z;
  selected_perks : list Z
}.

(** The fields of a [RuneManager] object ([self.lcu] is the outside
    world of the sections below). *)
Record t := {
  current_page_id : option Z;
  rune_data : gmap string rune_setup;
  path_id_map : list (string * Z);
  rune_id_map : list (string * Z)
}.

(** [__init__]: the two fixed tables, in declaration order. *)
Definition init : t := {|
  current_page_id := None;
  rune_data := ∅;
  path_id_map :=
    [ ("Precision", 8000); ("Domination", 8100); ("Sorcery", 8200);
      ("Inspiration", 8300); ("Resolve", 8400) ];
  rune_id_map :=
    [ (* Precision *)
      ("Press the Attack", 8005); ("Lethal Tempo", 8008);
      ("Fleet Footwork", 8021); ("Conqueror", 8010);
      ("Absorb Life", 9101); ("Triumph", 9111);
      ("Presence of Mind", 8009); ("Legend: Alacrity", 9104);
      ("Legend: Haste", 9105); ("Legend: Bloodline", 9103);
      ("Coup de Grace", 8014); ("Cut Down", 8017); ("Last Stand", 8299);
      (* Domination *)
      ("Electrocute", 8112); ("Predator", 8124); ("Dark Harvest", 8128);
      ("Hail of Blades", 9923); ("Cheap Shot", 8126);
      ("Taste of Blood", 8139); ("Sudden Impact", 8143);
      ("Sixth Sense", 8137); ("Grisly Mementos", 8140);
      ("Deep Ward", 8141); ("Treasure Hunter", 8135);
      ("Relentless Hunter", 8105); ("Ultimate Hunter", 8106);
      (* Sorcery *)
      ("Summon Aery", 8214); ("Arcane Comet", 8229); ("Phase Rush", 8230);
      ("Axiom Arcanist", 8224); ("Manaflow Band", 8226);
      ("Nimbus Cloak", 8275); ("Transcendence", 8210); ("Celerity", 8234);
      ("Absolute Focus", 8233); ("Scorch", 8237); ("Waterwalking", 8232);
      ("Gathering Storm", 8236);
      (* Resolve *)
      ("Grasp of the Undying", 8437); ("Aftershock", 8439);
      ("Guardian", 8465); ("Demolish", 8446); ("Font of Life", 8463);
      ("Shield Bash", 8401); ("Conditioning", 8429); ("Second Wind", 8444);
      ("Bone Plating", 8473); ("Overgrowth", 8451); ("Revitalize", 8453);
      ("Unflinching", 8242);
      (* Inspiration *)
      ("Glacial Augment", 8351); ("Unsealed Spellbook", 8360);
      ("First Strike", 8369); ("Hextech Flashtraption", 8306);
      ("Magical Footwear", 8304); ("Cash Back", 8321);
      ("Triple Tonic", 8313); ("Time Warp Tonic", 8352);
      ("Biscuit Delivery", 8345); ("Cosmic Insight", 8347);
      ("Approach Velocity", 8410); ("Jack Of All Trades", 8316);
      (* Stat shards *)
      ("Adaptive Force", 5008); ("Attack Speed", 5005);
      ("Ability Haste", 5007); ("Move Speed", 5010);
      ("Tenacity and Slow Resist", 5013); ("Health", 5011);
      ("Health Scaling", 5001) ]
|}.

(** The test of the fuzzy loop of [find_rune_id]:
    [known_name.lower() in rune_name.lower() or
     rune_name.lower() in known_name.lower()]. *)
Definition fuzzy_match (known_name rune_name : string) : bool :=
  (PyStr.str_in (PyStr.lower known_name) (PyStr.lower rune_name) ||
   PyStr.str_in (PyStr.lower rune_name) (PyStr.lower known_name))%bool.

(** [for known_name, known_id in self.rune_id_map.items(): ...] *)
Fixpoint fuzzy_scan (items : list (string * Z)) (rune_name : string) : option Z :=
  match items with
  | [] => None
  | (known_name, known_id) :: rest =>
      if fuzzy_match known_name rune_name then Some known_id
      else fuzzy_scan rest rune_name
  end.

(** [find_rune_id] *)
Definition find_rune_id (self : t) (rune_name : string) : option Z :=
  match PyDict.get (rune_id_map self) rune_name with
  | Some known_id => Some known_id                (* direct match *)
  | None => fuzzy_scan (rune_id_map self) rune_name
  end.

(** The record the scraper leaves in [rune_data.json]; every key is
    read with [.get], so every field may be absent. *)
Record scraped_data := {
  champion : option string;
  primary_path : option string;
  secondary_path : option string;
  keystone : option string;
  primary_runes : option (list string);
  secondary_runes : option (list string);
  stat_shards : option (list string)
}.

(** What [load_rune_data_from_file] finds on disk. *)
Inductive rune_file :=
  | NoFile                        (* [os.path.exists] is false *)
  | Unreadable                    (* [open] or [json.load] raises *)
  | Scraped (d : scraped_data).

(** The three loops that resolve a list of names and append the ids
    that are found and truthy ([if rune_id:]). *)
Fixpoint resolve_all (self : t) (names : list string) : list Z :=
  match names with
  | [] => []
  | rune_name :: rest =>
      match find_rune_id self rune_name with
      | Some rune_id =>
          if rune_id =? 0 then resolve_all self rest
          else rune_id :: resolve_all self rest
      | None => resolve_all self rest
      end
  end.

(** [load_rune_data_from_file]: the result and the manager afterwards. *)
Definition load_rune_data_from_file (self : t) (file : rune_file)
    (champion_name : string) : bool * t :=
  match file with
  | NoFile => (false, self)
  | Unreadable => (false, self)
  | Scraped d =>
      if negb (String.eqb (PyStr.lower (default "" (champion d)))
                          (PyStr.lower champion_name))
      then (false, self)
      else if (negb (PyStr.truthy_str (primary_path d)) ||
               negb (PyStr.truthy_str (secondary_path d)))%bool
      then (false, self)
      else
        let primary_style_id :=
          PyDict.get_default (path_id_map self) (default "" (primary_path d)) 8000 in
        let secondary_style_id :=
          PyDict.get_default (path_id_map self) (default "" (secondary_path d)) 8400 in
        if negb (PyStr.truthy_str (keystone d)) then (false, self)
        else
          match find_rune_id self (default "" (keystone d)) with
          | None => (false, self)
          | Some keystone_id =>
              if keystone_id =? 0 then (false, self)
              else
                let selected :=
                  ([keystone_id]
                     ++ resolve_all self (default [] (primary_runes d))
                     ++ resolve_all self (default [] (secondary_runes d))
                     ++ resolve_all self (default [] (stat_shards d)))%list in
                if negb (length selected =? 9)%nat then (false, self)
                else
                  (true,
                   {| current_page_id := current_page_id self;
                      rune_data :=
                        <[ champion_name :=
                             {| primary_style := primary_style_id;
                                sub_style := secondary_style_id;
                                selected_perks := selected |} ]>
                          (rune_data self);
                      path_id_map := path_id_map self;
                      rune_id_map := rune_id_map self |})
          end
  end.

(** *** The outside world

    What a call returns when it comes back ([Return]) or when an
    exception leaves it ([Raise]). *)
Inductive outcome :=
  | Return (b : bool)
  | Raise.

(** What the cascade of scraper strategies of
    [fetch_runes_for_champion] comes to. The in-process scrapers
    ([get_runes_headless], else [get_full_rune_tree]) and the
    [headless_scraper.py] subprocess that exits with 0 are each
    followed by [return self.load_rune_data_from_file(champion_name)]
    on the file as it then is; an exception of the last-resort
    subprocess gives [return False]; an exception other than
    [ImportError] of an in-process scraper is caught by no [except] of
    the method and leaves it. *)
Inductive scraper_outcome :=
  | Ran (file : rune_file)        (* a strategy ended; [rune_data.json] is [file] *)
  | Failed                        (* the subprocess fallback raised: [return False] *)
  | Crashed.                      (* another exception left the in-process scraper *)

(** The calls to the outside that the manager and the monitor make:
    [self.lcu.request] at each endpoint they use, with the answer read
    as the caller reads it ([None] is a null answer), and the
    scraper. Each call takes the world to its next state. *)
Class Outside (World : Type) := {
  get_pages : World -> option (list Lcu.page) * World;
  put_page : Z -> Lcu.page_body -> World -> option Lcu.reply * World;
  post_page : Lcu.page_body -> World -> option Lcu.reply * World;
  get_current_summoner : World -> option Lcu.summoner * World;
  get_champion : option Z -> Z -> World -> option Lcu.champion_data * World;
  run_scraper : string -> World -> scraper_outcome * World
}.

Definition set_current_page_id (id : Z) (self : t) : t := {|
  current_page_id := Some id;
  rune_data := rune_data self;
  path_id_map := path_id_map self;
  rune_id_map := rune_id_map self
|}.

(** [role = "auto"] and the page name [f"[AUTO] {champion_name} - {role}"] *)
Definition role : string := "auto".

Definition auto_page_name (champion_name : string) : string :=
  "[AUTO] " +:+ champion_name +:+ " - " +:+ role.

(** The body that both the update and the create send. *)
Definition body_of (champion_name : string) (rune_setup_ : rune_setup) : Lcu.page_body := {|
  Lcu.body_name := auto_page_name champion_name;
  Lcu.primaryStyleId := primary_style rune_setup_;
  Lcu.subStyleId := sub_style rune_setup_;
  Lcu.selectedPerkIds := selected_perks rune_setup_;
  Lcu.current := true
|}.

(** [next((p for p in pages if p['name'].startswith('[AUTO]')), None)] *)
Fixpoint first_auto_page (pages : list Lcu.page) : option Lcu.page :=
  match pages with
  | [] => None
  | p :: rest =>
      if PyStr.startswith (Lcu.page_name p) "[AUTO]" then Some p
      else first_auto_page rest
  end.

Section WithOutside.
Context {World : Type} `{Outside World}.

(** [fetch_runes_for_champion]. The whole cascade of scraper
    strategies is one call to the outside: [run_scraper] stands for
    all the scrapers that one fetch starts, one after the other (the
    in-process ones, then [headless_scraper.py] and [app.py] as
    subprocesses), not for one process. It is given
    [champion_name.lower()], the argument of every strategy but the
    last ([app.py] as a subprocess reads the name as it is). *)
Definition fetch_runes_for_champion (self : t) (champion_name : string)
    (w : World) : outcome * t * World :=
  match run_scraper (PyStr.lower champion_name) w with
  | (Ran file, w') =>
      let '(ok, self') := load_rune_data_from_file self file champion_name in
      (Return ok, self', w')
  | (Failed, w') => (Return false, self, w')
  | (Crashed, w') => (Raise, self, w')
  end.

(** How the first part of [apply_runes_for_champion] ends: with an
    early [return False], with an exception of the fetch, or with
    the setup to write. *)
Inductive prepared :=
  | Refused
  | Broke
  | Ready (rune_setup_ : rune_setup).

(** [apply_runes_for_champion] down to the check of the nine perks. *)
Definition prepare (self : t) (champion_name : string) (w : World)
    : prepared * t * World :=
  let '(fetched, self, w) :=
    match rune_data self !! champion_name with
    | Some _ => (Return true, self, w)
    | None => fetch_runes_for_champion self champion_name w
    end in
  match fetched with
  | Raise => (Broke, self, w)
  | Return false => (Refused, self, w)
  | Return true =>
      match rune_data self !! champion_name with
      | None => (Refused, self, w)
      | Some rune_setup_ =>
          if ((primary_style rune_setup_ =? 0) || (sub_style rune_setup_ =? 0))%bool
          then (Refused, self, w)
          else if negb (length (selected_perks rune_setup_) =? 9)%nat
          then (Refused, self, w)
          else (Ready rune_setup_, self, w)
      end
  end.

(** [apply_runes_for_champion] from the read of the pages on. *)
Definition write_page (self : t) (champion_name : string)
    (rune_setup_ : rune_setup) (w : World) : bool * t * World :=
  let '(answer, w) := get_pages w in
  let pages := default [] answer in
  match pages with
  | first_page :: _ =>
      let page_id :=
        match first_auto_page pages with
        | Some auto_rune_page => Lcu.page_id auto_rune_page
        | None => Lcu.page_id first_page
        end in
      let '(result, w) := put_page page_id (body_of champion_name rune_setup_) w in
      match result with
      | Some _ => (true, self, w)
      | None => (false, self, w)
      end
  | [] =>
      let '(result, w) := post_page (body_of champion_name rune_setup_) w in
      match result with
      | Some r =>
          match Lcu.reply_truthy r, Lcu.reply_id r with
          | true, Some id => (true, set_current_page_id id self, w)
          | _, _ => (false, self, w)
          end
      | None => (false, self, w)
      end
  end.

(** [apply_runes_for_champion] *)
Definition apply_runes_for_champion (self : t) (champion_name : string)
    (w : World) : outcome * t * World :=
  match prepare self champion_name w with
  | (Refused, self, w) => (Return false, self, w)
  | (Broke, self, w) => (Raise, self, w)
  | (Ready rune_setup_, self, w) =>
      let '(ok, self, w) := write_page self champion_name rune_setup_ w in
      (Return ok, self, w)
  end.
End WithOutside.

End RuneManager.


(** ** [ChampionSelectMonitor]: the handler of champion-select events *)

Module ChampionSelectMonitor.
Import RuneManager.

(** The fields of a [ChampionSelectMonitor] object; [self.lcu] and
    [self.rune_manager] are shared with the rest of the service and
    travel in [system] below. *)
Record t := {
  current_champion : option string;
  current_phase : option string;
  running : bool;
  processed_action_ids : gset (option Z)
}.

(** [__init__] *)
Definition init : t := {|
  current_champion := None;
  current_phase := None;
  running := false;
  processed_action_ids := ∅
|}.

(** The monitor with the objects it shares and the outside world. *)
Record system {World : Type} := {
  monitor : t;
  manager : RuneManager.t;
  world : World
}.
Arguments system : clear implicits.

(** One line [Champion locked in: <name>] of the success log: written
    by [on_champion_locked] each time it goes on to apply the runes. *)
Definition lock_in : Type := string * option Z.

Definition add_processed (id : option Z) (self : t) : t := {|
  current_champion := current_champion self;
  current_phase := current_phase self;
  running := running self;
  processed_action_ids := {[ id ]} ∪ processed_action_ids self
|}.

Definition set_phase (phase : option string) (self : t) : t := {|
  current_champion := current_champion self;
  current_phase := phase;
  running := running self;
  processed_action_ids := processed_action_ids self
|}.

(** [self.current_champion = None; self.processed_action_ids.clear()] *)
Definition reset (self : t) : t := {|
  current_champion := None;
  current_phase := current_phase self;
  running := running self;
  processed_action_ids := ∅
|}.

(** [self.current_champion = champion_name;
     self.processed_action_ids.clear()] *)
Definition change_champion (champion_name : string) (self : t) : t := {|
  current_champion := Some champion_name;
  current_phase := current_phase self;
  running := running self;
  processed_action_ids := ∅
|}.

Definition session_uri : string := "/lol-champ-select/v1/session".

Section WithOutside.
Context {World : Type} `{Outside World}.

(** The body of the [try] of [on_champion_locked]: apply, and on a
    failure fetch and apply once more. Whatever is raised is caught
    by the handler, so only the manager and the world come out. *)
Definition apply_with_retry (rm : RuneManager.t) (champion_name : string)
    (w : World) : RuneManager.t * World :=
  match apply_runes_for_champion rm champion_name w with
  | (Return true, rm, w) => (rm, w)
  | (Raise, rm, w) => (rm, w)
  | (Return false, rm, w) =>
      match fetch_runes_for_champion rm champion_name w with
      | (Return true, rm, w) =>
          let '(_, rm, w) := apply_runes_for_champion rm champion_name w in
          (rm, w)
      | (_, rm, w) => (rm, w)
      end
  end.

(** [on_champion_locked]: the system afterwards and the lock-ins
    logged. *)
Definition on_champion_locked (s : system World) (champion_name : string)
    (action_id : option Z) : system World * list lock_in :=
  if bool_decide (action_id ∈ processed_action_ids (monitor s)) then (s, [])
  else
    let self := add_processed action_id (monitor s) in
    let '(rm, w) := apply_with_retry (manager s) champion_name (world s) in
    ({| monitor := self; manager := rm; world := w |},
     [(champion_name, action_id)]).

(** The body of the inner [for action in action_group] loop. *)
Definition visit_action (local_player_id : option Z) (local_cell : Z)
    (action : Lcu.action) (s : system World) : system World * list lock_in :=
  if bool_decide (Lcu.actorCellId action = Some local_cell) then
    match Lcu.championId action with
    | None => (s, [])
    | Some champion_id =>
        if champion_id =? 0 then (s, [])
        else
          let '(champion_data, w) :=
            get_champion local_player_id champion_id (world s) in
          let s := {| monitor := monitor s; manager := manager s; world := w |} in
          match champion_data with
          | None => (s, [])
          | Some cd =>
              match Lcu.champion_name cd with
              | None => (s, [])
              | Some EmptyString => (s, [])
              | Some champion_name =>
                  let self :=
                    if bool_decide (Some champion_name = current_champion (monitor s))
                    then monitor s
                    else change_champion champion_name (monitor s) in
                  let s := {| monitor := self; manager := manager s; world := world s |} in
                  if (Lcu.truthy_flag (Lcu.completed action) &&
                      negb (bool_decide (Lcu.action_id action ∈ processed_action_ids self)))%bool
                  then on_champion_locked s champion_name (Lcu.action_id action)
                  else (s, [])
              end
          end
    end
  else (s, []).

(** [for action in action_group: ...] *)
Fixpoint visit_group (local_player_id : option Z) (local_cell : Z)
    (action_group : list Lcu.action) (s : system World)
    : system World * list lock_in :=
  match action_group with
  | [] => (s, [])
  | action :: rest =>
      let '(s, log1) := visit_action local_player_id local_cell action s in
      let '(s, log2) := visit_group local_player_id local_cell rest s in
      (s, (log1 ++ log2)%list)
  end.

(** [for action_group in data.get('actions', []): ...] *)
Fixpoint visit_groups (local_player_id : option Z) (local_cell : Z)
    (groups : list (list Lcu.action)) (s : system World)
    : system World * list lock_in :=
  match groups with
  | [] => (s, [])
  | action_group :: rest =>
      let '(s, log1) := visit_group local_player_id local_cell action_group s in
      let '(s, log2) := visit_groups local_player_id local_cell rest s in
      (s, (log1 ++ log2)%list)
  end.

(** [for player in data.get('myTeam', []): ... break]: the [cellId]
    of the first player whose [summonerId] equals the local one. *)
Fixpoint find_local_cell (local_player_id : option Z)
    (team : list Lcu.player) : option Z :=
  match team with
  | [] => None
  | player :: rest =>
      if bool_decide (Lcu.player_summonerId player = local_player_id)
      then Lcu.cellId player
      else find_local_cell local_player_id rest
  end.

(** [handle_ws_message], from [# Get local player] on. *)
Definition handle_session (data : Lcu.session) (s : system World)
    : system World * list lock_in :=
  let '(local_player, w) := get_current_summoner (world s) in
  let s := {| monitor := monitor s; manager := manager s; world := w |} in
  match local_player with
  | None => (s, [])
  | Some local_player =>
      let local_player_id := Lcu.summonerId local_player in
      match find_local_cell local_player_id (Lcu.myTeam data) with
      | None => (s, [])
      | Some local_cell =>
          visit_groups local_player_id local_cell (Lcu.actions data) s
      end
  end.

(** [handle_ws_message] *)
Definition handle_ws_message (s : system World) (message : Lcu.message)
    : system World * list lock_in :=
  match message with
  | Lcu.Short => (s, [])
  | Lcu.Event uri data =>
      if negb (bool_decide (uri = Some session_uri)) then (s, [])
      else
        let phase := data ≫= Lcu.timer_phase in
        let changed :=
          (PyStr.truthy_str phase &&
           negb (bool_decide (phase = current_phase (monitor s))))%bool in
        if (changed && bool_decide (phase = Some "None"))%bool then
          ({| monitor := reset (set_phase phase (monitor s));
              manager := manager s; world := world s |}, [])
        else
          let self := if changed then set_phase phase (monitor s) else monitor s in
          let s := {| monitor := self; manager := manager s; world := world s |} in
          match data, PyStr.truthy_str (current_phase self) with
          | Some data, true => handle_session data s
          | _, _ => (s, [])
          end
  end.

(** The events of a channel, handled one after the other. *)
Fixpoint handle_all (s : system World) (messages : list Lcu.message)
    : system World * list lock_in :=
  match messages with
  | [] => (s, [])
  | message :: rest =>
      let '(s, log1) := handle_ws_message s message in
      let '(s, log2) := handle_all s rest in
      (s, (log1 ++ log2)%list)
  end.
End WithOutside.

End ChampionSelectMonitor.

(** ** A scripted client, to run the model on concrete inputs *)

Module Scripted.
Import RuneManager.

(** The calls the program made, oldest first. [RunScraper] records
    one fetch, that is one cascade of scrapers, not one process. *)
Inductive call :=
  | GetPages
  | PutPage (id : Z) (body : Lcu.page_body)
  | PostPage (body : Lcu.page_body)
  | GetSummoner
  | GetChampion (summoner : option Z) (champion_id : Z)
  | RunScraper (champion_name : string).

(** The answers still to give to the reads of the pages, to the
    writes and to the cascades of scrapers, and the calls made so far.
    A script that has run out answers null (the scraper: fails). *)
Record world := {
  pages_script : list (option (list Lcu.page));
  put_script : list (option Lcu.reply);
  post_script : list (option Lcu.reply);
  scraper_script : list scraper_outcome;
  calls : list call
}.

Definition script (pages : list (option (list Lcu.page)))
    (puts posts : list (option Lcu.reply))
    (scrapes : list scraper_outcome) : world := {|
  pages_script := pages; put_script := puts; post_script := posts;
  scraper_script := scrapes; calls := []
|}.

Definition record_call (c : call) (w : world) : world := {|
  pages_script := pages_script w; put_script := put_script w;
  post_script := post_script w; scraper_script := scraper_script w;
  calls := (calls w ++ [c])%list
|}.

Definition next_pages (w : world) : option (list Lcu.page) * world :=
  (mjoin (head (pages_script w)),
   record_call GetPages
     {| pages_script := tail (pages_script w); put_script := put_script w;
        post_script := post_script w; scraper_script := scraper_script w;
        calls := calls w |}).

Definition next_put (id : Z) (body : Lcu.page_body) (w : world)
    : option Lcu.reply * world :=
  (mjoin (head (put_script w)),
   record_call (PutPage id body)
     {| pages_script := pages_script w; put_script := tail (put_script w);
        post_script := post_script w; scraper_script := scraper_script w;
        calls := calls w |}).

Definition next_post (body : Lcu.page_body) (w : world)
    : option Lcu.reply * world :=
  (mjoin (head (post_script w)),
   record_call (PostPage body)
     {| pages_script := pages_script w; put_script := put_script w;
        post_script := tail (post_script w); scraper_script := scraper_script w;
        calls := calls w |}).

Definition next_scrape (champion_name : string) (w : world)
    : scraper_outcome * world :=
  (default Failed (head (scraper_script w)),
   record_call (RunScraper champion_name)
     {| pages_script := pages_script w; put_script := put_script w;
        post_script := post_script w; scraper_script := tail (scraper_script w);
        calls := calls w |}).

(** A client that always knows the local summoner as [who] and
    resolves a champion id with [champions], and otherwise follows
    the script. *)
Definition client (who : option Lcu.summoner)
    (champions : Z -> option Lcu.champion_data) : Outside world := {|
  get_pages := next_pages;
  put_page := next_put;
  post_page := next_post;
  get_current_summoner := fun w => (who, record_call GetSummoner w);
  get_champion := fun summoner champion_id w =>
    (champions champion_id, record_call (GetChampion summoner champion_id) w);
  run_scraper := next_scrape
|}.

End Scripted.

(** ** The words of the claims about the rune manager *)

Module Resolver.
Import RuneManager.

(** Either name contains the other once both are in lower case. *)
Definition either_contains (known_name rune_name : string) : Prop :=
  (∃ pre post, PyStr.lower rune_name = pre +:+ PyStr.lower known_name +:+ post) ∨
  (∃ pre post, PyStr.lower known_name = pre +:+ PyStr.lower rune_name +:+ post).

(** A manager as the program can have it: the tables are those of
    [__init__], which no method changes. *)
Definition manager_with (page : option Z) (data : gmap string rune_setup) : t := {|
  current_page_id := page;
  rune_data := data;
  path_id_map := path_id_map init;
  rune_id_map := rune_id_map init
|}.

(** The ids of the names of a list that resolve, in the order of the
    list. *)
Definition resolved (self : t) (names : list string) : list Z :=
  omap (find_rune_id self) names.

(** Keystone, primary, secondary and stat-shard ids, in that order. *)
Definition ids_in_order (self : t) (keystone_id : Z) (d : scraped_data) : list Z :=
  (keystone_id
     :: resolved self (default [] (primary_runes d))
     ++ resolved self (default [] (secondary_runes d))
     ++ resolved self (default [] (stat_shards d)))%list.

(** [self.rune_data[champion_name] = {"auto": rune_setup_}] *)
Definition with_setup (self : t) (champion_name : string) (rune_setup_ : rune_setup) : t := {|
  current_page_id := current_page_id self;
  rune_data := <[ champion_name := rune_setup_ ]> (rune_data self);
  path_id_map := path_id_map self;
  rune_id_map := rune_id_map self
|}.

(** The page the update goes to: the first page tagged [[AUTO]] if
    there is one, else the first page. *)
Definition tagged (p : Lcu.page) : Prop :=
  ∃ rest, Lcu.page_name p = "[AUTO]" +:+ rest.

End Resolver.

(** ** The words of the claims about the monitor *)

Module Session.
Import RuneManager ChampionSelectMonitor.

(** The phase an event carries, if any. *)
Definition phase_of (message : Lcu.message) : option string :=
  match message with
  | Lcu.Short => None
  | Lcu.Event _ data => data ≫= Lcu.timer_phase
  end.

(** Events within one session: none carries the terminal phase. *)
Definition same_session (messages : list Lcu.message) : Prop :=
  Forall (fun message => phase_of message ≠ Some "None") messages.

(** The action ids of the lock-ins logged, and how often one occurs. *)
Definition ids_of (log : list lock_in) : list (option Z) := log.*2.

Definition count_id (id : option Z) (log : list lock_in) : nat :=
  length (filter (fun logged => logged = id) (ids_of log)).

(** [action] is a pick of the player in [local_cell]: it names a
    champion and is completed. *)
Definition is_lock_in (local_cell : Z) (action : Lcu.action) : Prop :=
  Lcu.actorCellId action = Some local_cell ∧
  (∃ champion_id, Lcu.championId action = Some champion_id ∧ champion_id ≠ 0) ∧
  Lcu.completed action = Some true.

(** [message] is a champion-select event, with a phase, in which the
    local player [who] has a completed action with the id [id]. *)
Definition shows_lock_in (who : Lcu.summoner) (id : option Z)
    (message : Lcu.message) : Prop :=
  ∃ data phase local_cell action_group action,
    message = Lcu.Event (Some session_uri) (Some data) ∧
    Lcu.timer_phase data = Some phase ∧ phase ≠ "" ∧
    find_local_cell (Lcu.summonerId who) (Lcu.myTeam data) = Some local_cell ∧
    action_group ∈ Lcu.actions data ∧
    action ∈ action_group ∧
    is_lock_in local_cell action ∧
    Lcu.action_id action = id.

(** The processed ids that count for [subject]: those of the set
    while [subject] is the current champion, none otherwise (the
    set is cleared when the champion becomes [subject]). *)
Definition effective (subject : string) (self : t) : gset (option Z) :=
  if bool_decide (current_champion self = Some subject)
  then processed_action_ids self
  else ∅.

(** From a monitor whose effective set is [before] to the monitor
    [self'], logging [log]: the ids logged are new, are logged once
    each and are exactly what the effective set gains. *)
Definition grows (subject : string) (before : gset (option Z))
    (log : list lock_in) (self' : t) : Prop :=
  effective subject self' = list_to_set (ids_of log) ∪ before ∧
  NoDup (ids_of log) ∧
  (∀ id, id ∈ ids_of log → id ∉ before).

Section WithOutside.
Context {World : Type} `{Outside World}.

(** One unchanged subject: whatever champion the client resolves,
    its name is [subject]. *)
Definition one_subject (subject : string) : Prop :=
  ∀ summoner champion_id w cd champion_name,
    (get_champion summoner champion_id w).1 = Some cd →
    Lcu.champion_name cd = Some champion_name →
    champion_name ≠ "" →
    champion_name = subject.

(** The client answers: it knows the local summoner [who] and
    resolves every champion id to [subject]. *)
Definition client_answers (who : Lcu.summoner) (subject : string) : Prop :=
  subject ≠ "" ∧
  (∀ w, (get_current_summoner w).1 = Some who) ∧
  (∀ summoner champion_id w,
     (get_champion summoner champion_id w).1
       = Some {| Lcu.champion_name := Some subject |}).

(** The champion [champion_id] is [subject]: whenever the client
    resolves it, its name is [subject]. *)
Definition resolves_to (subject : string) (champion_id : Z) : Prop :=
  ∀ summoner w cd champion_name,
    (get_champion summoner champion_id w).1 = Some cd →
    Lcu.champion_name cd = Some champion_name →
    champion_name ≠ "" →
    champion_name = subject.

(** If [action] is an action of the player in [local_cell] and names
    a champion, that champion is [subject]. *)
Definition names_subject (subject : string) (local_cell : Z)
    (action : Lcu.action) : Prop :=
  Lcu.actorCellId action = Some local_cell →
  ∀ champion_id,
    Lcu.championId action = Some champion_id → champion_id ≠ 0 →
    resolves_to subject champion_id.

(** [local_cell] is a cell that the handler can take for the local
    player's in [data]: the cell of a summoner that the client gives
    as the current one. *)
Definition local_cell_in (data : Lcu.session) (local_cell : Z) : Prop :=
  ∃ w local_player,
    (get_current_summoner w).1 = Some local_player ∧
    find_local_cell (Lcu.summonerId local_player) (Lcu.myTeam data)
      = Some local_cell.

(** The actions of the local player in the event, if it is an event
    of the session with data, all name [subject]. *)
Definition keeps_subject (subject : string) (message : Lcu.message) : Prop :=
  match message with
  | Lcu.Event uri (Some data) =>
      uri = Some session_uri →
      ∀ local_cell,
        local_cell_in data local_cell →
        Forall (Forall (names_subject subject local_cell)) (Lcu.actions data)
  | _ => True
  end.

(** One unchanged subject, over the events delivered: in each of
    them, every action of the local player that names a champion
    names [subject]. The actions of the other players, and what the
    client knows of other champions, play no part. *)
Definition unchanged_subject (subject : string)
    (messages : list Lcu.message) : Prop :=
  Forall (keeps_subject subject) messages.

(** [action] is a pick of [subject] by the player in [local_cell]: it
    is completed and names a champion that the client resolves to
    [subject]. *)
Definition is_pick_of (subject : string) (local_cell : Z)
    (action : Lcu.action) : Prop :=
  Lcu.actorCellId action = Some local_cell ∧
  (∃ champion_id,
     Lcu.championId action = Some champion_id ∧ champion_id ≠ 0 ∧
     ∀ summoner w,
       (get_champion summoner champion_id w).1
         = Some {| Lcu.champion_name := Some subject |}) ∧
  Lcu.completed action = Some true.

(** [message] is a champion-select event, with a phase, in which the
    local player [who] has a completed pick of [subject] with the id
    [id]. *)
Definition shows_pick (who : Lcu.summoner) (subject : string)
    (id : option Z) (message : Lcu.message) : Prop :=
  ∃ data phase local_cell action_group action,
    message = Lcu.Event (Some session_uri) (Some data) ∧
    Lcu.timer_phase data = Some phase ∧ phase ≠ "" ∧
    find_local_cell (Lcu.summonerId who) (Lcu.myTeam data) = Some local_cell ∧
    action_group ∈ Lcu.actions data ∧
    action ∈ action_group ∧
    is_pick_of subject local_cell action ∧
    Lcu.action_id action = id.
End WithOutside.

End Session.

(** ** Sample inputs *)

Module Samples.
Import RuneManager Resolver.

(** The record of the scenario of C9. *)
Definition scenario : scraped_data := {|
  champion := Some "X";
  primary_path := Some "Domination";
  secondary_path := Some "Resolve";
  keystone := Some "Electrocute";
  primary_runes := Some ["Cheap Shot"; "Sudden Impact"; "Treasure Hunter"];
  secondary_runes := Some ["Second Wind"; "Bone Plating"];
  stat_shards := Some ["Adaptive Force"; "Adaptive Force"; "Health"]
|}.

(** A valid setup and a manager that holds it for [champion_name]. *)
Definition nine_perks : rune_setup := {|
  primary_style := 8100;
  sub_style := 8400;
  selected_perks := [8112; 8126; 8143; 8135; 8444; 8473; 5008; 5008; 5011]
|}.

Definition holding (champion_name : string) : RuneManager.t :=
  with_setup init champion_name nine_perks.

(** A network that plays a list of outcomes, one per call. *)
Definition play {Json : Type} (sent : LCUConnection.http_request Json)
    (net : list (LCUConnection.http_outcome Json)) : LCUConnection.http_outcome Json * list (LCUConnection.http_outcome Json) :=
  match net with
  | [] => (LCUConnection.RequestException, [])
  | outcome :: rest => (outcome, rest)
  end.

Definition connected_client : LCUConnection.t :=
  LCUConnection.set_connected true LCUConnection.init.

(** A scripted client that knows no summoner and no champion. *)
Definition quiet : Outside Scripted.world :=
  Scripted.client None (fun _ => None).

(** Three pages: one of the player's own, then two tagged ones. *)
Definition own_page : Lcu.page :=
  {| Lcu.page_id := 1; Lcu.page_name := "Main" |}.
Definition auto_page : Lcu.page :=
  {| Lcu.page_id := 2; Lcu.page_name := "[AUTO] Zed - auto" |}.
Definition older_auto_page : Lcu.page :=
  {| Lcu.page_id := 3; Lcu.page_name := "[AUTO] Lux - auto" |}.

(** The local summoner 11, and a client that knows it and resolves
    every champion id to Ahri. *)
Definition local_summoner : Lcu.summoner := {| Lcu.summonerId := Some 11 |}.

Definition ahri_client : Outside Scripted.world :=
  Scripted.client (Some local_summoner)
    (fun _ => Some {| Lcu.champion_name := Some "Ahri" |}).

(** A champion-select event in which the local summoner sits in cell
    0 and has one action, with the id [id], on champion 103. *)
Definition pick_event (phase : string) (id : Z) (completed : bool) : Lcu.message :=
  Lcu.Event (Some ChampionSelectMonitor.session_uri)
    (Some {| Lcu.timer_phase := Some phase;
             Lcu.myTeam := [ {| Lcu.player_summonerId := Some 22; Lcu.cellId := Some 1 |};
                             {| Lcu.player_summonerId := Some 11; Lcu.cellId := Some 0 |} ];
             Lcu.actions :=
               [ [ {| Lcu.actorCellId := Some 1; Lcu.championId := Some 64;
                      Lcu.action_id := Some 4; Lcu.completed := Some true |} ];
                 [ {| Lcu.actorCellId := Some 0; Lcu.championId := Some 103;
                      Lcu.action_id := Some id; Lcu.completed := Some completed |} ] ] |}).

(** The same event, with the local player's action on champion 64. *)
Definition repick_event (phase : string) (id : Z) : Lcu.message :=
  Lcu.Event (Some ChampionSelectMonitor.session_uri)
    (Some {| Lcu.timer_phase := Some phase;
             Lcu.myTeam := [ {| Lcu.player_summonerId := Some 11; Lcu.cellId := Some 0 |} ];
             Lcu.actions :=
               [ [ {| Lcu.actorCellId := Some 0; Lcu.championId := Some 64;
                      Lcu.action_id := Some id; Lcu.completed := Some true |} ] ] |}).

(** An event in which the local player has two completed actions, the
    first on champion 64 and the second on champion 103. *)
Definition ban_and_pick_event (phase : string) : Lcu.message :=
  Lcu.Event (Some ChampionSelectMonitor.session_uri)
    (Some {| Lcu.timer_phase := Some phase;
             Lcu.myTeam := [ {| Lcu.player_summonerId := Some 11; Lcu.cellId := Some 0 |} ];
             Lcu.actions :=
               [ [ {| Lcu.actorCellId := Some 0; Lcu.championId := Some 64;
                      Lcu.action_id := Some 4; Lcu.completed := Some true |} ];
                 [ {| Lcu.actorCellId := Some 0; Lcu.championId := Some 103;
                      Lcu.action_id := Some 5; Lcu.completed := Some true |} ] ] |}).

(** A client that resolves 64 to Lee Sin and any other id to Ahri. *)
Definition two_champions_client : Outside Scripted.world :=
  Scripted.client (Some local_summoner)
    (fun champion_id =>
       Some {| Lcu.champion_name :=
                 Some (if champion_id =? 64 then "Lee Sin" else "Ahri") |}).

(** The event that ends a session. *)
Definition end_data : Lcu.session :=
  {| Lcu.timer_phase := Some "None"; Lcu.myTeam := []; Lcu.actions := [] |}.

Definition end_event : Lcu.message :=
  Lcu.Event (Some ChampionSelectMonitor.session_uri) (Some end_data).

(** A fresh monitor with a manager that holds runes for Ahri, and a
    client with one page whose writes succeed. *)
Definition fresh_system : ChampionSelectMonitor.system Scripted.world := {|
  ChampionSelectMonitor.monitor := ChampionSelectMonitor.init;
  ChampionSelectMonitor.manager := holding "Ahri";
  ChampionSelectMonitor.world :=
    Scripted.script [Some [own_page]; Some [own_page]]
      [Some Lcu.EmptyDict; Some Lcu.EmptyDict] [] []
|}.

(** A monitor that has Ahri as its champion, about to handle the
    lock-in 5, with a manager without runes and a scraper that fails:
    the apply and its retry both fail. *)
Definition failing_system : ChampionSelectMonitor.system Scripted.world := {|
  ChampionSelectMonitor.monitor :=
    ChampionSelectMonitor.change_champion "Ahri"
      (ChampionSelectMonitor.set_phase (Some "BAN_PICK") ChampionSelectMonitor.init);
  ChampionSelectMonitor.manager := init;
  ChampionSelectMonitor.world := Scripted.script [] [] [] [Failed; Failed]
|}.

(** The page that a [POST] for Ahri answered with the id 7 creates. *)
Definition created_page : Lcu.page :=
  {| Lcu.page_id := 7; Lcu.page_name := auto_page_name "Ahri" |}.

End Samples.

(** ** The words of the further properties of the connector *)

Module Discovery.
Import LCUConnection.

Definition client_name : string := "LeagueClientUx.exe".
Definition token_flag : string := "--remoting-auth-token=".
Definition port_flag : string := "--app-port=".

(** A process from which discovery can read both parameters. *)
Definition usable (proc : process) : Prop :=
  name proc = client_name ∧
  is_Some (first_with_prefix token_flag (cmdline proc)) ∧
  is_Some (first_with_prefix port_flag (cmdline proc)).

(** The short cut of [find_league_client]: the connection is marked
    connected and the process it tracks is still running. *)
Definition still_running (o : os) (self : t) : Prop :=
  connected self = true ∧
  ∃ p, process_ self = Some p ∧ is_running o p = true.

(** No character of [s] is [=]. *)
Definition no_equals (s : string) : Prop :=
  Forall (fun c => c ≠ "="%char) (String.list_ascii_of_string s).

(** What discovery leaves when it succeeds on [proc] with the
    arguments [token_arg] and [port_arg]. *)
Definition discovered (proc : process) (token_arg port_arg : string)
    (self : t) : t := {|
  auth_token := Some (split_equals_1 token_arg);
  port := Some (split_equals_1 port_arg);
  process_ := Some proc;
  headers := Some ("riot:" +:+ split_equals_1 token_arg);
  base_url := Some ("https://127.0.0.1:" +:+ split_equals_1 port_arg);
  connected := true;
  ws_connected := ws_connected self
|}.

(** A connection that is marked connected holds what a call needs:
    token, port, the header and the base URL made of them, and the
    process. *)
Definition wired (self : t) : Prop :=
  connected self = true →
  ∃ token port_value,
    auth_token self = Some token ∧
    port self = Some port_value ∧
    headers self = Some ("riot:" +:+ token) ∧
    base_url self = Some ("https://127.0.0.1:" +:+ port_value) ∧
    is_Some (process_ self).

End Discovery.

(** ** Further sample inputs *)

Module MoreSamples.
Import RuneManager Resolver Samples.

(** Three processes: another program, a client process without the
    port argument, and a client process with both arguments. *)
Definition other_process : LCUConnection.process :=
  {| LCUConnection.pid := 3; LCUConnection.name := "explorer.exe";
     LCUConnection.cmdline := ["explorer.exe"] |}.

Definition half_client : LCUConnection.process :=
  {| LCUConnection.pid := 4; LCUConnection.name := "LeagueClientUx.exe";
     LCUConnection.cmdline := ["LeagueClientUx.exe"; "--remoting-auth-token=old"] |}.

Definition full_client : LCUConnection.process :=
  {| LCUConnection.pid := 5; LCUConnection.name := "LeagueClientUx.exe";
     LCUConnection.cmdline :=
       ["LeagueClientUx.exe"; "--app-port=51234"; "--remoting-auth-token=s3cret";
        "--app-port=1"] |}.

Definition three_processes : LCUConnection.os :=
  {| LCUConnection.process_iter := [other_process; half_client; full_client];
     LCUConnection.is_running := fun _ => true |}.

End MoreSamples.

(** ** The words of the further properties of the rune manager *)

Module Setup.
Import RuneManager.

(** The five style ids of [path_id_map]. *)
Definition style_ids : list Z := [8000; 8100; 8200; 8300; 8400].

(** What [apply_runes_for_champion] checks of a setup before it
    writes: both styles truthy and exactly nine perks. *)
Definition valid_setup (rune_setup_ : rune_setup) : Prop :=
  primary_style rune_setup_ ≠ 0 ∧
  sub_style rune_setup_ ≠ 0 ∧
  length (selected_perks rune_setup_) = 9%nat.

(** The names of the three lists of a record, keystone apart. *)
Definition listed_names (d : scraped_data) : list string :=
  (default [] (primary_runes d) ++ default [] (secondary_runes d)
     ++ default [] (stat_shards d))%list.

End Setup.

(** ** The words of the invariants of the service *)

Module Invariants.
Import RuneManager ChampionSelectMonitor Session Setup.

(** The perk ids of the catalogue of [__init__]. *)
Definition catalogue_ids : list Z := (rune_id_map RuneManager.init).*2.

(** A setup made of the tables: two style ids of the five, and nine
    perk ids of the catalogue. *)
Definition catalogued (rune_setup_ : rune_setup) : Prop :=
  primary_style rune_setup_ ∈ style_ids ∧
  sub_style rune_setup_ ∈ style_ids ∧
  length (selected_perks rune_setup_) = 9%nat ∧
  Forall (fun id => id ∈ catalogue_ids) (selected_perks rune_setup_).

(** The manager has the tables of [__init__], and every setup in its
    data is made of them. *)
Definition sound (self : RuneManager.t) : Prop :=
  path_id_map self = path_id_map RuneManager.init ∧
  rune_id_map self = rune_id_map RuneManager.init ∧
  map_Forall (fun _ rune_setup_ => catalogued rune_setup_) (rune_data self).

(** What a handler that logged [log] may have done between [s] and
    [s'], for a property [P] of the manager and the client that the
    calls keep: the phase is the same, every id that is now processed
    was processed or is logged, and [P] still holds. *)
Definition handled {World : Type} (P : RuneManager.t → World → Prop)
    (s : system World) (log : list lock_in) (s' : system World) : Prop :=
  current_phase (monitor s') = current_phase (monitor s) ∧
  processed_action_ids (monitor s') ⊆
    processed_action_ids (monitor s) ∪ list_to_set (ids_of log) ∧
  (P (manager s) (world s) → P (manager s') (world s')).

(** The phase that an event announces: the phase of an event of the
    session uri, when it is not empty. *)
Definition announced (message : Lcu.message) : option string :=
  match message with
  | Lcu.Short => None
  | Lcu.Event uri data =>
      if (bool_decide (uri = Some session_uri) &&
          PyStr.truthy_str (data ≫= Lcu.timer_phase))%bool
      then data ≫= Lcu.timer_phase
      else None
  end.

(** The last phase announced by [messages], or [phase] if none is. *)
Definition last_phase (phase : option string) (messages : list Lcu.message)
    : option string :=
  foldl (fun phase message =>
           match announced message with
           | Some p => Some p
           | None => phase
           end) phase messages.

(** No action of the local player [who] in the event is completed. *)
Definition hover_message (who : option Lcu.summoner) (message : Lcu.message)
    : Prop :=
  match message with
  | Lcu.Event _ (Some data) =>
      ∀ local_player local_cell,
        who = Some local_player →
        find_local_cell (Lcu.summonerId local_player) (Lcu.myTeam data)
          = Some local_cell →
        Forall (Forall (fun action =>
                          Lcu.actorCellId action = Some local_cell →
                          Lcu.truthy_flag (Lcu.completed action) = false))
          (Lcu.actions data)
  | _ => True
  end.

(** The calls of a scripted client. *)
Definition written (c : Scripted.call) : option Lcu.page_body :=
  match c with
  | Scripted.PutPage _ body | Scripted.PostPage body => Some body
  | _ => None
  end.

Definition is_write (c : Scripted.call) : bool :=
  match written c with Some _ => true | None => false end.

Definition is_cascade (c : Scripted.call) : bool :=
  match c with Scripted.RunScraper _ => true | _ => false end.

Definition is_lookup (c : Scripted.call) : Prop :=
  match c with
  | Scripted.GetSummoner | Scripted.GetChampion _ _ => True
  | _ => False
  end.

Definition count (f : Scripted.call → bool) (cs : list Scripted.call) : nat :=
  length (List.filter f cs).

(** A body that is a whole page of the service: tagged, current, two
    style ids of the five and nine perk ids of the catalogue. *)
Definition good_body (body : Lcu.page_body) : Prop :=
  PyStr.startswith (Lcu.body_name body) "[AUTO]" = true ∧
  Lcu.current body = true ∧
  Lcu.primaryStyleId body ∈ style_ids ∧
  Lcu.subStyleId body ∈ style_ids ∧
  length (Lcu.selectedPerkIds body) = 9%nat ∧
  Forall (fun id => id ∈ catalogue_ids) (Lcu.selectedPerkIds body).

Definition good_call (c : Scripted.call) : Prop :=
  match written c with
  | Some body => good_body body
  | None => True
  end.

(** The calls of one [apply_runes_for_champion]: one cascade of
    scrapers (one fetch) when the manager holds nothing for the
    champion, then nothing more, or a read of the pages followed by
    one write of a valid setup that the manager [self'] holds for the
    champion. *)
Definition cascade_calls (self : RuneManager.t) (champion_name : string)
    : list Scripted.call :=
  match rune_data self !! champion_name with
  | Some _ => []
  | None => [Scripted.RunScraper (PyStr.lower champion_name)]
  end.

Definition write_calls (self' : RuneManager.t) (champion_name : string)
    (cs : list Scripted.call) : Prop :=
  cs = [] ∨
  ∃ rune_setup_ c,
    rune_data self' !! champion_name = Some rune_setup_ ∧
    valid_setup rune_setup_ ∧
    (c = Scripted.PostPage (body_of champion_name rune_setup_) ∨
     ∃ id, c = Scripted.PutPage id (body_of champion_name rune_setup_)) ∧
    cs = [Scripted.GetPages; c].

(** Between [s] and [s'] the manager is the same and the client was
    only asked for the summoner and for champions. *)
Definition looked (s s' : system Scripted.world) : Prop :=
  manager s' = manager s ∧
  ∃ new,
    Scripted.calls (world s') = (Scripted.calls (world s) ++ new)%list ∧
    Forall is_lookup new.

End Invariants.

(** ** [AutoRunesService]: the loop of the background service *)

Module AutoRunesService.

(** The fields of an [AutoRunesService] object; [self.rune_manager]
    plays no part in the loop. *)
Record t := {
  lcu : LCUConnection.t;
  monitor : option ChampionSelectMonitor.t;
  running : bool
}.

(** [__init__] *)
Definition init : t := {|
  lcu := LCUConnection.init; monitor := None; running := false
|}.

(** What the loop does to the monitors: it starts the thread of a new
    one, or stops the one it holds. *)
Inductive event :=
  | Started
  | Stopped.

Definition is_started (e : event) : bool :=
  match e with Started => true | Stopped => false end.

Definition is_stopped (e : event) : bool :=
  match e with Started => false | Stopped => true end.

Definition with_lcu (c : LCUConnection.t) (self : t) : t :=
  {| lcu := c; monitor := monitor self; running := running self |}.

(** [self.lcu.connected = False; self.lcu.ws_connected = False] *)
Definition disconnect (c : LCUConnection.t) : LCUConnection.t := {|
  LCUConnection.auth_token := LCUConnection.auth_token c;
  LCUConnection.port := LCUConnection.port c;
  LCUConnection.process_ := LCUConnection.process_ c;
  LCUConnection.headers := LCUConnection.headers c;
  LCUConnection.base_url := LCUConnection.base_url c;
  LCUConnection.connected := false;
  LCUConnection.ws_connected := false
|}.

(** The body of the [while self.running] loop of [start], up to the
    sleep, with the operating system as it is then. *)
Definition iteration (o : LCUConnection.os) (self : t) : t * list event :=
  if negb (LCUConnection.connected (lcu self)) then
    let '(found, c) := LCUConnection.find_league_client o (lcu self) in
    let self := with_lcu c self in
    if found then
      match monitor self with
      | None =>
          ({| lcu := lcu self; monitor := Some ChampionSelectMonitor.init;
              running := running self |}, [Started])
      | Some _ => (self, [])
      end
    else (self, [])
  else
    if match LCUConnection.process_ (lcu self) with
       | None => true
       | Some p => negb (LCUConnection.is_running o p)
       end
    then
      let self := with_lcu (disconnect (lcu self)) self in
      match monitor self with
      | Some _ =>
          ({| lcu := lcu self; monitor := None; running := running self |},
           [Stopped])
      | None => (self, [])
      end
    else (self, []).

(** Rounds of the loop. The connection is shared with the threads of
    the monitor, which may have changed it during the sleep: each
    round comes with what they did to it and with the operating system
    at the time of the round. *)
Fixpoint iterations
    (rounds : list ((LCUConnection.t → LCUConnection.t) * LCUConnection.os))
    (self : t) : t * list event :=
  match rounds with
  | [] => (self, [])
  | (others, o) :: rest =>
      let '(self, log1) := iteration o (with_lcu (others (lcu self)) self) in
      let '(self, log2) := iterations rest self in
      (self, (log1 ++ log2)%list)
  end.

(** The monitors that the loop holds: one or none. *)
Definition held (self : t) : nat :=
  match monitor self with Some _ => 1 | None => 0 end.

End AutoRunesService.

(** * Facts *)

(** ** Strings and ordered [dict]s *)

Module PyStrFacts.
Import PyStr.

Lemma startswith_spec s p :
  startswith s p = true <-> exists rest, s = p +:+ rest.
Proof.
  revert s; induction p as [|a p IH]; intros s; simpl.
  - split; [intros _; by exists s | done].
  - destruct s as [|b s]; simpl.
    + split; [discriminate | intros [? ?]; discriminate].
    + rewrite andb_true_iff, IH, Ascii.eqb_eq. split.
      * intros [-> [rest ->]]. by exists rest.
      * intros [rest Heq]. injection Heq as -> ->. eauto.
Qed.

Lemma str_in_spec needle hay :
  str_in needle hay = true <-> exists pre post, hay = pre +:+ needle +:+ post.
Proof.
  induction hay as [|c hay IH]; simpl; rewrite orb_true_iff, startswith_spec.
  - split.
    + intros [[rest ->]|?]; [by exists EmptyString, rest | done].
    + intros [pre [post Heq]]. left. destruct pre; [by exists post | discriminate].
  - rewrite IH. split.
    + intros [[rest ->]|[pre [post ->]]].
      * by exists EmptyString, rest.
      * by exists (String c pre), post.
    + intros [pre [post Heq]]. destruct pre as [|c' pre]; simpl in Heq.
      * left. by exists post.
      * right. injection Heq as -> ->. by exists pre, post.
Qed.

Lemma append_assoc (a b c : string) : (a +:+ b) +:+ c = a +:+ b +:+ c.
Proof.
  induction a as [|x a IH]; [done|].
  change (String x ((a +:+ b) +:+ c) = String x (a +:+ b +:+ c)).
  by rewrite IH.
Qed.

End PyStrFacts.

Module PyDictFacts.
Import PyDict.

Lemma get_Some_In {V : Type} (d : list (string * V)) key v :
  get d key = Some v -> In (key, v) d.
Proof.
  induction d as [|[k v'] d IH]; simpl; [done|].
  destruct (String.eqb_spec k key) as [->|_].
  - intros [= ->]. by left.
  - intros Hget. right. by apply IH.
Qed.

Lemma get_app_fresh {V : Type} (before after : list (string * V)) key v :
  key ∉ before.*1 -> get (before ++ (key, v) :: after) key = Some v.
Proof.
  induction before as [|[k v'] before IH]; simpl; intros Hfresh.
  - by rewrite String.eqb_refl.
  - destruct (String.eqb_spec k key) as [->|_].
    + exfalso. apply Hfresh. simpl. left.
    + apply IH. intros Hin. apply Hfresh. simpl. by right.
Qed.

Lemma get_None_keys {V : Type} (d : list (string * V)) key :
  get d key = None <-> key ∉ d.*1.
Proof.
  induction d as [|[k v] d IH]; simpl.
  - split; [intros _; apply not_elem_of_nil | done].
  - rewrite not_elem_of_cons. destruct (String.eqb_spec k key) as [->|Hne].
    + split; [done | by intros [? _]].
    + rewrite IH. split; [by intros ? | by intros [_ ?]].
Qed.

End PyDictFacts.

(** ** Resolution of names *)

Module ResolverFacts.
Import RuneManager Resolver.

Lemma fuzzy_match_spec known_name rune_name :
  fuzzy_match known_name rune_name = true <-> either_contains known_name rune_name.
Proof.
  unfold fuzzy_match, either_contains.
  by rewrite orb_true_iff, !PyStrFacts.str_in_spec.
Qed.

Lemma fuzzy_match_false known_name rune_name :
  fuzzy_match known_name rune_name = false <-> ¬ either_contains known_name rune_name.
Proof.
  rewrite <- fuzzy_match_spec. by destruct (fuzzy_match known_name rune_name).
Qed.

(** The loop stops at the first entry that matches. *)
Lemma fuzzy_scan_Some items rune_name id :
  fuzzy_scan items rune_name = Some id <->
  ∃ before known_name after,
    items = (before ++ (known_name, id) :: after)%list ∧
    either_contains known_name rune_name ∧
    Forall (fun item => ¬ either_contains item.1 rune_name) before.
Proof.
  induction items as [|[k v] items IH]; simpl.
  - split; [done | intros (before & ? & ? & Heq & _)]. by destruct before.
  - destruct (fuzzy_match k rune_name) eqn:Hk.
    + split.
      * intros [= ->]. exists [], k, items. by rewrite <- fuzzy_match_spec.
      * intros (before & k' & after & Heq & Hin & Hnone).
        destruct before as [|[k0 v0] before]; simplify_eq/=; [done|].
        apply Forall_cons_1 in Hnone as [Hbad _]. simpl in Hbad.
        by apply fuzzy_match_false in Hbad; congruence.
    + rewrite IH. apply fuzzy_match_false in Hk. split.
      * intros (before & k' & after & -> & Hin & Hnone).
        exists ((k, v) :: before), k', after. by repeat split; [|constructor].
      * intros (before & k' & after & Heq & Hin & Hnone).
        destruct before as [|[k0 v0] before]; simplify_eq/=; [done|].
        apply Forall_cons_1 in Hnone as [_ Hnone]. by exists before, k', after.
Qed.

Lemma fuzzy_scan_None items rune_name :
  fuzzy_scan items rune_name = None <->
  Forall (fun item => ¬ either_contains item.1 rune_name) items.
Proof.
  induction items as [|[k v] items IH]; simpl.
  - split; [by constructor | done].
  - rewrite Forall_cons. simpl. rewrite <- fuzzy_match_false, <- IH.
    destruct (fuzzy_match k rune_name); [|tauto].
    split; [done | by intros [? _]].
Qed.

(** C7. [find_rune_id] first looks the name up exactly (the entry
    with that very key wins, whatever stands before it); if no key is
    the name, it returns the id of the first entry, in declaration
    order, such that one name contains the other in lower case; it
    returns nothing exactly when no entry is or contains the name in
    that sense. *)
Theorem find_rune_id_exact_then_first_fuzzy (self : t) (rune_name : string) :
  (∀ before id after,
      rune_id_map self = (before ++ (rune_name, id) :: after)%list →
      rune_name ∉ before.*1 →
      find_rune_id self rune_name = Some id) ∧
  (rune_name ∉ (rune_id_map self).*1 →
   ∀ id, find_rune_id self rune_name = Some id ↔
     ∃ before known_name after,
       rune_id_map self = (before ++ (known_name, id) :: after)%list ∧
       either_contains known_name rune_name ∧
       Forall (fun item => ¬ either_contains item.1 rune_name) before) ∧
  (find_rune_id self rune_name = None ↔
   Forall (fun item => item.1 ≠ rune_name ∧ ¬ either_contains item.1 rune_name)
     (rune_id_map self)).
Proof.
  unfold find_rune_id. split; [|split].
  - intros before id after -> Hfresh.
    by rewrite PyDictFacts.get_app_fresh.
  - intros Hnokey id. apply PyDictFacts.get_None_keys in Hnokey as ->.
    apply fuzzy_scan_Some.
  - destruct (PyDict.get (rune_id_map self) rune_name) as [id|] eqn:Hget.
    + split; [done|]. intros Hall. apply PyDictFacts.get_Some_In in Hget.
      rewrite Forall_forall in Hall.
      apply list_elem_of_In, Hall in Hget as [Hne _]. done.
    + rewrite fuzzy_scan_None. apply PyDictFacts.get_None_keys in Hget.
      rewrite !Forall_forall. split.
      * intros Hall [k v] Hin. split; [|by apply Hall].
        simpl. intros ->. apply Hget. apply list_elem_of_fmap. by exists (rune_name, v).
      * intros Hall item Hin. by apply Hall.
Qed.

(** On the catalogue of [__init__]: the exact key wins over an
    earlier entry that matches loosely, the first of several loose
    matches wins, and the empty name matches the first entry. *)
Example exact_beats_earlier_fuzzy :
  find_rune_id init "Health Scaling" = Some 5001 ∧
  fuzzy_scan (rune_id_map init) "Health Scaling" = Some 5011.
Proof. by vm_compute. Qed.

Example first_fuzzy_wins :
  find_rune_id init "hunter" = Some 8135 ∧
  find_rune_id init "The Rune Triumph" = Some 9111 ∧
  find_rune_id init "" = Some 8005 ∧
  find_rune_id init "Zzz" = None.
Proof. by vm_compute. Qed.

Lemma find_rune_id_in_catalogue self rune_name id :
  find_rune_id self rune_name = Some id → id ∈ (rune_id_map self).*2.
Proof.
  unfold find_rune_id.
  destruct (PyDict.get (rune_id_map self) rune_name) as [id'|] eqn:Hget.
  - intros [= ->]. apply PyDictFacts.get_Some_In, list_elem_of_In in Hget.
    apply list_elem_of_fmap. by exists (rune_name, id).
  - intros (before & k & after & -> & _)%fuzzy_scan_Some.
    apply list_elem_of_fmap. exists (k, id). split; [done|].
    apply elem_of_app. right. apply list_elem_of_here.
Qed.

(** No id of the catalogue of [__init__] is falsy. *)
Lemma init_ids_nonzero : Forall (fun id => id ≠ 0) (rune_id_map init).*2.
Proof. apply (bool_decide_unpack _). by vm_compute. Qed.

Lemma resolve_all_resolved self names :
  Forall (fun id => id ≠ 0) (rune_id_map self).*2 →
  resolve_all self names = resolved self names.
Proof.
  intros Hnonzero. unfold resolved.
  induction names as [|rune_name names IH]; simpl; [done|].
  destruct (find_rune_id self rune_name) as [id|] eqn:Hfind; simpl; [|done].
  apply find_rune_id_in_catalogue in Hfind.
  rewrite Forall_forall in Hnonzero. apply Hnonzero in Hfind.
  destruct (Z.eqb_spec id 0); [done | by rewrite IH].
Qed.

End ResolverFacts.

(** ** Validation of a scraped record *)

Module ValidationFacts.
Import RuneManager Resolver ResolverFacts Samples.

Lemma truthy_str_Some (text : string) :
  text ≠ "" → PyStr.truthy_str (Some text) = true.
Proof. by destruct text. Qed.

(** C9. The record with the paths Domination and Resolve, the
    keystone Electrocute, the primary runes Cheap Shot, Sudden Impact,
    Treasure Hunter, the secondary runes Second Wind, Bone Plating and
    the shards Adaptive Force, Adaptive Force, Health is accepted and
    stored with the group ids 8100 and 8400 and the nine ids 8112,
    8126, 8143, 8135, 8444, 8473, 5008, 5008, 5011, in that order. *)
Theorem load_scenario :
  load_rune_data_from_file init (Scraped scenario) "X" =
    (true,
     with_setup init "X"
       {| primary_style := 8100;
          sub_style := 8400;
          selected_perks := [8112; 8126; 8143; 8135; 8444; 8473; 5008; 5008; 5011] |}).
Proof. reflexivity. Qed.

(** C2, as the code has it. Take a record whose [champion] is the
    requested champion up to letter case, with non-empty primary and
    secondary path names and a non-empty keystone name that resolves.
    Then [load_rune_data_from_file] succeeds if and only if the
    keystone id followed by the ids of the primary runes, of the
    secondary runes and of the stat shards that resolve, each list in
    its order, are exactly nine; on success that list is stored for
    the champion, and otherwise the result is false and nothing is
    stored. *)
Theorem load_accepts_exactly_nine page data d champion_name p s k keystone_id :
  PyStr.lower (default "" (champion d)) = PyStr.lower champion_name →
  primary_path d = Some p → p ≠ "" →
  secondary_path d = Some s → s ≠ "" →
  keystone d = Some k → k ≠ "" →
  find_rune_id (manager_with page data) k = Some keystone_id →
  let self := manager_with page data in
  let ids := ids_in_order self keystone_id d in
  (length ids = 9%nat →
   load_rune_data_from_file self (Scraped d) champion_name =
     (true,
      with_setup self champion_name
        {| primary_style := PyDict.get_default (path_id_map self) p 8000;
           sub_style := PyDict.get_default (path_id_map self) s 8400;
           selected_perks := ids |})) ∧
  (length ids ≠ 9%nat →
   load_rune_data_from_file self (Scraped d) champion_name = (false, self)).
Proof.
  intros Hchampion Hp Hp_ne Hs Hs_ne Hk Hk_ne Hfind self ids.
  assert (Hkeystone : keystone_id ≠ 0).
  { apply find_rune_id_in_catalogue in Hfind.
    pose proof init_ids_nonzero as Hall. rewrite Forall_forall in Hall.
    by apply Hall. }
  assert (Hload : load_rune_data_from_file self (Scraped d) champion_name =
    if negb (length ids =? 9)%nat then (false, self)
    else (true,
          with_setup self champion_name
            {| primary_style := PyDict.get_default (path_id_map self) p 8000;
               sub_style := PyDict.get_default (path_id_map self) s 8400;
               selected_perks := ids |})).
  { unfold load_rune_data_from_file.
    rewrite Hchampion, String.eqb_refl, Hp, Hs, Hk. simpl negb at 1.
    rewrite !truthy_str_Some by done. simpl default.
    subst self. rewrite Hfind.
    destruct (Z.eqb_spec keystone_id 0) as [?|_]; [done|].
    rewrite !resolve_all_resolved by apply init_ids_nonzero.
    done. }
  rewrite Hload. split.
  - intros ->. done.
  - intros Hlen. by apply Nat.eqb_neq in Hlen as ->.
Qed.

(** The theorem at the record of the scenario, asked for as [x]. *)
Lemma load_accepts_exactly_nine_witness :
  load_rune_data_from_file init (Scraped scenario) "x" =
    (true,
     with_setup init "x"
       {| primary_style := 8100;
          sub_style := 8400;
          selected_perks := [8112; 8126; 8143; 8135; 8444; 8473; 5008; 5008; 5011] |}).
Proof.
  apply (proj1 (load_accepts_exactly_nine None ∅ scenario "x"
                  "Domination" "Resolve" "Electrocute" 8112
                  eq_refl eq_refl ltac:(done) eq_refl ltac:(done)
                  eq_refl ltac:(done) eq_refl)).
  reflexivity.
Defined.

Lemma truthy_str_inv (o : option string) :
  PyStr.truthy_str o = true → ∃ text, o = Some text ∧ text ≠ "".
Proof. destruct o as [[|c text]|]; [done| |done]. intros _. by eexists. Qed.

(** Whatever is on disk, a success means that every check passed and
    that nine ids were found. *)
Lemma load_success_inv page data file champion_name self' :
  load_rune_data_from_file (manager_with page data) file champion_name
    = (true, self') →
  ∃ d p s k keystone_id,
    file = Scraped d ∧
    PyStr.lower (default "" (champion d)) = PyStr.lower champion_name ∧
    primary_path d = Some p ∧ p ≠ "" ∧
    secondary_path d = Some s ∧ s ≠ "" ∧
    keystone d = Some k ∧ k ≠ "" ∧
    find_rune_id (manager_with page data) k = Some keystone_id ∧
    length (ids_in_order (manager_with page data) keystone_id d) = 9%nat.
Proof.
  unfold load_rune_data_from_file. destruct file as [| |d]; [done..|].
  destruct (String.eqb_spec (PyStr.lower (default "" (champion d)))
              (PyStr.lower champion_name)) as [Hchampion|]; [|done].
  cbn [negb].
  destruct (PyStr.truthy_str (primary_path d)) eqn:Hp; [|done].
  destruct (PyStr.truthy_str (secondary_path d)) eqn:Hs; [|done].
  destruct (PyStr.truthy_str (keystone d)) eqn:Hk; [|done].
  apply truthy_str_inv in Hp as (p & Hp & ?), Hs as (s & Hs & ?),
    Hk as (k & Hk & ?).
  cbn [negb orb]. rewrite Hk. change (default "" (Some k)) with k.
  destruct (find_rune_id (manager_with page data) k) as [keystone_id|] eqn:Hfind;
    [|done].
  destruct (keystone_id =? 0); [done|].
  rewrite !resolve_all_resolved by apply init_ids_nonzero.
  match goal with
  | |- context [(length ?ids =? 9)%nat] =>
      destruct (Nat.eqb_spec (length ids) 9) as [Hnine|]; [|done]
  end.
  intros _. exists d, p, s, k, keystone_id. repeat (split; [done|]). exact Hnine.
Qed.

(** Rejections: a name that does not resolve leaves eight ids; an
    empty keystone; no file. *)
Example load_rejections :
  let short := {| champion := champion scenario;
                  primary_path := primary_path scenario;
                  secondary_path := secondary_path scenario;
                  keystone := keystone scenario;
                  primary_runes := Some ["Cheap Shot"; "Zzz"; "Treasure Hunter"];
                  secondary_runes := secondary_runes scenario;
                  stat_shards := stat_shards scenario |} in
  let no_keystone := {| champion := champion scenario;
                        primary_path := primary_path scenario;
                        secondary_path := secondary_path scenario;
                        keystone := Some "";
                        primary_runes := primary_runes scenario;
                        secondary_runes := secondary_runes scenario;
                        stat_shards := stat_shards scenario |} in
  load_rune_data_from_file init (Scraped short) "X" = (false, init) ∧
  load_rune_data_from_file init (Scraped no_keystone) "X" = (false, init) ∧
  load_rune_data_from_file init NoFile "X" = (false, init).
Proof. by vm_compute. Qed.

(** C2, as the claim words it, fails: a record with present paths, a
    keystone that resolves and nine ids is rejected when its
    [champion] is not the one asked for. *)
Lemma load_rejects_other_champion :
  let d := {| champion := Some "Ahri";
              primary_path := primary_path scenario;
              secondary_path := secondary_path scenario;
              keystone := keystone scenario;
              primary_runes := primary_runes scenario;
              secondary_runes := secondary_runes scenario;
              stat_shards := stat_shards scenario |} in
  PyStr.truthy_str (primary_path d) = true ∧
  PyStr.truthy_str (secondary_path d) = true ∧
  find_rune_id init "Electrocute" = Some 8112 ∧
  length (ids_in_order init 8112 d) = 9%nat ∧
  load_rune_data_from_file init (Scraped d) "Zed" = (false, init).
Proof. by vm_compute. Qed.

End ValidationFacts.

(** ** The HTTP call of the connector *)

Module ConnectionFacts.
Import LCUConnection Samples.

Lemma scan_processes_found procs self self' :
  scan_processes procs self = (true, self') → connected self' = true.
Proof.
  revert self. induction procs as [|proc procs IH]; intros self; simpl; [done|].
  destruct (String.eqb (name proc) "LeagueClientUx.exe"); [|by apply IH].
  destruct (first_with_prefix "--remoting-auth-token=" (cmdline proc));
    [|by apply IH].
  destruct (first_with_prefix "--app-port=" (cmdline proc)); [|by apply IH].
  by intros [= <-].
Qed.

Lemma find_league_client_found o self self' :
  find_league_client o self = (true, self') → connected self' = true.
Proof.
  unfold find_league_client.
  destruct (connected self) eqn:Hconnected; simpl.
  - destruct (process_ self) as [p|]; [destruct (is_running o p)|].
    + by intros [= <-].
    + apply scan_processes_found.
    + apply scan_processes_found.
  - apply scan_processes_found.
Qed.

Section Request.
Context {Json Net : Type}.
Variable empty_dict : Json.
Variable requests_request : http_request Json → Net → http_outcome Json * Net.

Lemma ensure_connected_ready o self self' :
  ensure_connected o self = (true, self') → connected self' = true.
Proof.
  unfold ensure_connected. destruct (connected self) eqn:Hconnected.
  - by intros [= <-].
  - apply find_league_client_found.
Qed.

(** C8. Let [request] be called in any state. If the client is not
    connected and is not found, nothing is sent. Otherwise exactly
    one call of [requests.request] is made, whatever it brings:
    the network is left as that one call leaves it, so no call is
    repeated. A 404 answer gives [None] and leaves the connection
    marked connected; an exception of the transport, or an answer
    with an error status 400..599 other than 404, gives [None] and
    marks the connection as not connected. *)
Theorem request_failure_semantics (o : os) (self : t) (net : Net)
    (method_ endpoint : string) (data : option Json) :
  let '(ready, self1) := ensure_connected o self in
  let '(result, self2, net2) :=
    request empty_dict requests_request o self net method_ endpoint data in
  let '(answer, net1) :=
    requests_request
      {| method := method_;
         url := format_url (base_url self1) endpoint;
         req_headers := headers self1;
         json := data;
         verify := false |} net in
  (ready = false → result = None ∧ net2 = net) ∧
  (ready = true →
   net2 = net1 ∧
   (∀ text, answer = Response 404 text →
            result = None ∧ connected self2 = true) ∧
   (answer = RequestException ∨
    (∃ status_code text,
        answer = Response status_code text ∧
        400 ≤ status_code < 600 ∧ status_code ≠ 404) →
    result = None ∧ connected self2 = false)).
Proof.
  unfold request.
  destruct (ensure_connected o self) as [ready self1] eqn:Hready.
  destruct ready; simpl.
  - apply ensure_connected_ready in Hready.
    destruct (requests_request _ net) as [answer net1].
    destruct answer as [status_code text|].
    + destruct (Z.eqb_spec status_code 404) as [->|Hnot404].
      * split; [done|]. intros _. split; [done|]. split; [done|].
        intros [?|(? & ? & [= <- _] & _ & ?)]; done.
      * unfold raises_for_status.
        destruct (Z.leb_spec 400 status_code), (Z.ltb_spec status_code 600);
          simpl.
        all: try (destruct text).
        all: split; [done|]; intros _; split; [done|]; split;
          [intros ? [= ? _]; done|].
        all: intros [?|(? & ? & [= <- <-] & [? ?] & ?)]; try done; lia.
    + split; [done|]. intros _. split; [done|]. split; [done|]. done.
  - destruct (requests_request _ net) as [answer net1].
    split; [done|]. done.
Qed.

(** A body that is empty comes back as the empty object, and a body
    that decodes to a value as that value, with the connection left
    as it was. *)
Lemma request_success o self net method_ endpoint data status_code text net1 :
  connected self = true →
  requests_request
    {| method := method_;
       url := format_url (base_url self) endpoint;
       req_headers := headers self;
       json := data;
       verify := false |} net = (Response status_code text, net1) →
  ¬ (400 ≤ status_code < 600) →
  text ≠ BadText →
  text ≠ NullText →
  request empty_dict requests_request o self net method_ endpoint data =
    (Some match text with JsonText j => j | _ => empty_dict end, self, net1).
Proof.
  intros Hconnected Hsend Hstatus Htext Hnull. unfold request, ensure_connected.
  rewrite Hconnected. simpl. rewrite Hsend.
  destruct (Z.eqb_spec status_code 404) as [->|_]; [lia|].
  unfold raises_for_status.
  destruct (Z.leb_spec 400 status_code), (Z.ltb_spec status_code 600);
    simpl; try lia; by destruct text.
Qed.
End Request.

(** A call that fails is not repeated: the good answer that a second
    try would get is still to come. *)
Example request_does_not_retry :
  request (Json := Z) 0 play {| process_iter := []; is_running := fun _ => true |}
    connected_client [RequestException; Response 200 (JsonText 7)]
    "GET" "/lol-perks/v1/pages" None
  = (None, set_connected false connected_client, [Response 200 (JsonText 7)]).
Proof. reflexivity. Qed.

Example request_not_found_stays_connected :
  request (Json := Z) 0 play {| process_iter := []; is_running := fun _ => true |}
    connected_client [Response 404 EmptyText; Response 200 (JsonText 7)]
    "GET" "/lol-perks/v1/pages" None
  = (None, connected_client, [Response 200 (JsonText 7)]).
Proof. reflexivity. Qed.

(** A good answer whose body is the JSON text [null] gives [None]
    and leaves the connection marked connected. *)
Example request_null_body_is_none :
  request (Json := Z) 0 play {| process_iter := []; is_running := fun _ => true |}
    connected_client [Response 200 NullText] "GET" "/lol-perks/v1/pages" None
  = (None, connected_client, []).
Proof. reflexivity. Qed.

Example request_server_error_disconnects :
  request (Json := Z) 0 play {| process_iter := []; is_running := fun _ => true |}
    connected_client [Response 500 EmptyText] "GET" "/lol-perks/v1/pages" None
  = (None, set_connected false connected_client, []).
Proof. reflexivity. Qed.

(** Discovery reads the token and the port off the command line. *)
Example find_league_client_reads_command_line :
  let ux := {| pid := 4; name := "LeagueClientUx.exe";
               cmdline := ["LeagueClientUx.exe"; "--app-port=51234";
                           "--remoting-auth-token=s3cret"] |} in
  let found :=
    find_league_client {| process_iter := [ux]; is_running := fun _ => true |} init in
  found.1 = true ∧
  base_url found.2 = Some "https://127.0.0.1:51234" ∧
  headers found.2 = Some "riot:s3cret".
Proof. by vm_compute. Qed.

End ConnectionFacts.

(** ** Create-or-update of the rune page *)

Module ApplyFacts.
Import RuneManager Resolver.

Lemma tagged_startswith p :
  PyStr.startswith (Lcu.page_name p) "[AUTO]" = true ↔ tagged p.
Proof. apply PyStrFacts.startswith_spec. Qed.

(** [next(...)] returns the first tagged page. *)
Lemma first_auto_page_first before p after :
  tagged p → Forall (fun q => ¬ tagged q) before →
  first_auto_page (before ++ p :: after) = Some p.
Proof.
  intros Htagged Hnone.
  induction Hnone as [|q before Hq _ IH]; cbn [first_auto_page app].
  - apply tagged_startswith in Htagged. by rewrite Htagged.
  - rewrite <- tagged_startswith in Hq.
    by destruct (PyStr.startswith (Lcu.page_name q) "[AUTO]").
Qed.

Lemma first_auto_page_none pages :
  Forall (fun q => ¬ tagged q) pages → first_auto_page pages = None.
Proof.
  induction 1 as [|q pages Hq _ IH]; cbn [first_auto_page]; [done|].
  rewrite <- tagged_startswith in Hq.
  by destruct (PyStr.startswith (Lcu.page_name q) "[AUTO]").
Qed.

(** A list with a tagged page splits at its first tagged page. *)
Lemma first_tagged_split pages :
  Exists tagged pages →
  ∃ before p after,
    pages = (before ++ p :: after)%list ∧ tagged p ∧
    Forall (fun q => ¬ tagged q) before.
Proof.
  induction pages as [|q pages IH]; [by intros ?%Exists_nil|].
  intros Hexists.
  destruct (PyStr.startswith (Lcu.page_name q) "[AUTO]") eqn:Hq.
  - exists [], q, pages. by rewrite <- tagged_startswith.
  - assert (Hq' : ¬ tagged q) by (rewrite <- tagged_startswith; congruence).
    apply Exists_cons in Hexists as [?|Hexists]; [done|].
    destruct (IH Hexists) as (before & p & after & -> & Htagged & Hnone).
    exists (q :: before), p, after. by repeat split; [|constructor].
Qed.

Section WithOutside.
Context {World : Type} `{Outside World}.

(** A setup that passed the checks is in the manager's data, and
    passes them again at any later time. *)
Lemma prepare_Ready self champion_name w rune_setup_ self1 w1 :
  prepare self champion_name w = (Ready rune_setup_, self1, w1) →
  ∀ page w', prepare
               {| current_page_id := page; rune_data := rune_data self1;
                  path_id_map := path_id_map self1;
                  rune_id_map := rune_id_map self1 |} champion_name w'
             = (Ready rune_setup_,
                {| current_page_id := page; rune_data := rune_data self1;
                   path_id_map := path_id_map self1;
                   rune_id_map := rune_id_map self1 |}, w').
Proof.
  intros Hprepare page w'. unfold prepare in Hprepare.
  destruct (match rune_data self !! champion_name with
            | Some _ => (Return true, self, w)
            | None => fetch_runes_for_champion self champion_name w
            end) as [[fetched self0] w0].
  destruct fetched as [[|]|]; try done.
  destruct (rune_data self0 !! champion_name) as [found|] eqn:Hfound; [|done].
  destruct ((primary_style found =? 0) || (sub_style found =? 0))%bool eqn:Hstyles;
    [done|].
  destruct (negb (length (selected_perks found) =? 9)%nat) eqn:Hnine; [done|].
  injection Hprepare as <- <- <-.
  unfold prepare. cbn [rune_data]. rewrite Hfound.
  cbn [rune_data]. by rewrite Hfound, Hstyles, Hnine.
Qed.

Lemma apply_Ready self champion_name w rune_setup_ self1 w1 :
  prepare self champion_name w = (Ready rune_setup_, self1, w1) →
  apply_runes_for_champion self champion_name w =
    let '(ok, self2, w2) := write_page self1 champion_name rune_setup_ w1 in
    (Return ok, self2, w2).
Proof. intros Hprepare. unfold apply_runes_for_champion. by rewrite Hprepare. Qed.

(** C5. When [apply_runes_for_champion] comes to write and reads a
    list of pages that is not empty, it sends one [PUT]. If some page
    of the list has a name that starts with [[AUTO]], the [PUT] goes
    to the first such page, so never to an untagged one; only if no
    page is tagged does it go to the first page of the list. *)
Theorem apply_updates_first_tagged self champion_name w rune_setup_
    self1 w1 pages w2 :
  prepare self champion_name w = (Ready rune_setup_, self1, w1) →
  get_pages w1 = (Some pages, w2) →
  pages ≠ [] →
  let update id :=
    let '(result, w3) := put_page id (body_of champion_name rune_setup_) w2 in
    (Return (if result is Some _ then true else false), self1, w3) in
  (Exists tagged pages →
   ∃ before p after,
     pages = (before ++ p :: after)%list ∧
     tagged p ∧ Forall (fun q => ¬ tagged q) before ∧
     apply_runes_for_champion self champion_name w = update (Lcu.page_id p)) ∧
  (Forall (fun q => ¬ tagged q) pages →
   ∃ p rest,
     pages = p :: rest ∧
     apply_runes_for_champion self champion_name w = update (Lcu.page_id p)).
Proof.
  intros Hprepare Hpages Hnonempty update. subst update.
  rewrite (apply_Ready _ _ _ _ _ _ Hprepare). unfold write_page.
  rewrite Hpages. simpl default.
  destruct pages as [|first_page rest_pages]; [done|]. split.
  - intros (before & p & after & Heq & Htagged & Hnone)%first_tagged_split.
    exists before, p, after. split; [done|]. split; [done|]. split; [done|].
    rewrite Heq, (first_auto_page_first _ _ _ Htagged Hnone).
    destruct (before ++ p :: after)%list; [done|].
    destruct (put_page _ _ w2) as [[?|] ?]; done.
  - intros Hnone. exists first_page, rest_pages. split; [done|].
    rewrite (first_auto_page_none _ Hnone).
    destruct (put_page _ _ w2) as [[?|] ?]; done.
Qed.

(** C6, as the code has it. When [apply_runes_for_champion] comes
    to write, it returns a boolean. On the update path it is true
    if and only if the answer to the [PUT] is not null. On the
    create path it is true if and only if the answer to the [POST]
    is an object that has an [id]; the empty object and an object
    without [id] give false. A null answer gives false on both
    paths. *)
Theorem apply_result_by_path self champion_name w rune_setup_ self1 w1
    answer w2 :
  prepare self champion_name w = (Ready rune_setup_, self1, w1) →
  get_pages w1 = (answer, w2) →
  let body := body_of champion_name rune_setup_ in
  ∃ ok, (apply_runes_for_champion self champion_name w).1.1 = Return ok ∧
    match default [] answer with
    | first_page :: rest =>
        let target :=
          match first_auto_page (first_page :: rest) with
          | Some auto_rune_page => Lcu.page_id auto_rune_page
          | None => Lcu.page_id first_page
          end in
        ok = true ↔ (put_page target body w2).1 ≠ None
    | [] =>
        (ok = true ↔ ∃ id, (post_page body w2).1 = Some (Lcu.Dict (Some id))) ∧
        ((post_page body w2).1 = None → ok = false)
    end.
Proof.
  intros Hprepare Hpages body. subst body.
  rewrite (apply_Ready _ _ _ _ _ _ Hprepare). unfold write_page.
  rewrite Hpages. destruct (default [] answer) as [|first_page rest].
  - destruct (post_page _ w2) as [[[|[id|]]|] w3]; simpl.
    + exists false. split; [done|]. split; [|done].
      split; [done | by intros [? ?]].
    + exists true. split; [done|]. split; [|done]. split; [by exists id | done].
    + exists false. split; [done|]. split; [|done].
      split; [done | by intros [? ?]].
    + exists false. split; [done|]. split; [|done].
      split; [done | by intros [? ?]].
  - cbv zeta.
    destruct (put_page _ _ w2) as [[r|] w3]; simpl.
    + by exists true.
    + exists false. split; [done|]. split; [done | by intros ?].
Qed.

(** C4, as the code has it. When the list of pages read by
    [apply_runes_for_champion] is empty (or the read fails) and the
    [POST] is answered with an object that has an [id], the call
    returns true and records that id in [current_page_id]. The
    recorded id is not read again: a later call for the same
    champion sends its [PUT] to that id when the list it reads back
    has the created page as its first [[AUTO]] page. *)
Theorem apply_creates_then_updates self champion_name w rune_setup_
    self1 w1 answer w2 id w3 :
  prepare self champion_name w = (Ready rune_setup_, self1, w1) →
  get_pages w1 = (answer, w2) →
  default [] answer = [] →
  post_page (body_of champion_name rune_setup_) w2
    = (Some (Lcu.Dict (Some id)), w3) →
  let created := set_current_page_id id self1 in
  apply_runes_for_champion self champion_name w = (Return true, created, w3) ∧
  current_page_id created = Some id ∧
  ∀ w' pages w4 before p after,
    get_pages w' = (Some pages, w4) →
    pages = (before ++ p :: after)%list →
    Lcu.page_id p = id → tagged p → Forall (fun q => ¬ tagged q) before →
    apply_runes_for_champion created champion_name w' =
      let '(result, w5) := put_page id (body_of champion_name rune_setup_) w4 in
      (Return (if result is Some _ then true else false), created, w5).
Proof.
  intros Hprepare Hpages Hempty Hpost created. split; [|split; [done|]].
  - rewrite (apply_Ready _ _ _ _ _ _ Hprepare). unfold write_page.
    by rewrite Hpages, Hempty, Hpost.
  - intros w' pages w4 before p after Hread Heq <- Htagged Hnone.
    pose proof (prepare_Ready _ _ _ _ _ _ Hprepare (Some (Lcu.page_id p)) w')
      as Hagain.
    subst created. unfold set_current_page_id.
    rewrite (apply_Ready _ _ _ _ _ _ Hagain). unfold write_page.
    rewrite Hread. simpl default.
    rewrite Heq, (first_auto_page_first _ _ _ Htagged Hnone).
    destruct (before ++ p :: after)%list eqn:Hlist;
      [by destruct before|].
    destruct (put_page _ _ w4) as [[?|] ?]; done.
Qed.
End WithOutside.

End ApplyFacts.

(** ** The create-or-update on scripted clients *)

Module ApplyExamples.
Import RuneManager Resolver Samples ApplyFacts.

Lemma own_page_untagged : ¬ tagged own_page.
Proof. by intros [rest Hname]. Qed.

Lemma before_untagged : Forall (fun q => ¬ tagged q) [own_page].
Proof. repeat constructor. apply own_page_untagged. Qed.

Lemma auto_page_tagged : tagged auto_page.
Proof. by exists " Zed - auto". Qed.

Lemma created_page_tagged : tagged created_page.
Proof. by exists " Ahri - auto". Qed.

(** With an untagged page first and two tagged pages after it, the
    one [PUT] goes to a tagged page with no tagged page before it. *)
Lemma apply_updates_first_tagged_witness :
  let w := Scripted.script [Some [own_page; auto_page; older_auto_page]]
             [Some Lcu.EmptyDict] [] [] in
  ∃ before p after,
    [own_page; auto_page; older_auto_page] = (before ++ p :: after)%list ∧
    tagged p ∧ Forall (fun q => ¬ tagged q) before ∧
    apply_runes_for_champion (H := quiet) (holding "Ahri") "Ahri" w =
      let '(result, w3) :=
        put_page (Outside := quiet) (Lcu.page_id p) (body_of "Ahri" nine_perks)
          (Scripted.next_pages w).2 in
      (Return (if result is Some _ then true else false), holding "Ahri", w3).
Proof.
  intros w.
  assert (Hprepare : prepare (H := quiet) (holding "Ahri") "Ahri" w
                     = (Ready nine_perks, holding "Ahri", w)) by reflexivity.
  assert (Hread : get_pages (Outside := quiet) w
                  = (Some [own_page; auto_page; older_auto_page],
                     (Scripted.next_pages w).2)) by reflexivity.
  apply (proj1 (apply_updates_first_tagged (H := quiet) _ _ _ _ _ _ _ _
                  Hprepare Hread ltac:(done))).
  apply Exists_cons_tl, Exists_cons_hd, auto_page_tagged.
Defined.

(** The same call, evaluated: the [PUT] goes to page 2. *)
Example apply_updates_page_two :
  let w := Scripted.script [Some [own_page; auto_page; older_auto_page]]
             [Some Lcu.EmptyDict] [] [] in
  let result := apply_runes_for_champion (H := quiet) (holding "Ahri") "Ahri" w in
  result.1 = (Return true, holding "Ahri") ∧
  Scripted.calls result.2 =
    [Scripted.GetPages; Scripted.PutPage 2 (body_of "Ahri" nine_perks)].
Proof. by vm_compute. Qed.

(** With no tagged page the [PUT] goes to the first page. *)
Example apply_falls_back_to_first_page :
  let w := Scripted.script [Some [own_page]] [Some Lcu.EmptyDict] [] [] in
  let result := apply_runes_for_champion (H := quiet) (holding "Ahri") "Ahri" w in
  result.1 = (Return true, holding "Ahri") ∧
  Scripted.calls result.2 =
    [Scripted.GetPages; Scripted.PutPage 1 (body_of "Ahri" nine_perks)].
Proof. by vm_compute. Qed.

(** C6, as the claim words it, fails on the create path: the [POST]
    is answered with the empty object, which is not null, and the
    call returns false. *)
Lemma create_answer_without_id_fails :
  let w := Scripted.script [Some []] [] [Some Lcu.EmptyDict] [] in
  let result := apply_runes_for_champion (H := quiet) (holding "Ahri") "Ahri" w in
  (post_page (Outside := quiet) (body_of "Ahri" nine_perks)
     (get_pages (Outside := quiet) w).2).1 = Some Lcu.EmptyDict ∧
  result.1 = (Return false, holding "Ahri") ∧
  Scripted.calls result.2 =
    [Scripted.GetPages; Scripted.PostPage (body_of "Ahri" nine_perks)].
Proof. by vm_compute. Qed.

(** The update path at a null and at a non-null answer. *)
Lemma apply_result_by_path_witness :
  let w := Scripted.script [Some [own_page; auto_page]] [None] [] [] in
  ∃ ok,
    (apply_runes_for_champion (H := quiet) (holding "Ahri") "Ahri" w).1.1
      = Return ok ∧
    (ok = true ↔
     (put_page (Outside := quiet) 2 (body_of "Ahri" nine_perks)
        (get_pages (Outside := quiet) w).2).1 ≠ None).
Proof.
  intros w.
  assert (Hprepare : prepare (H := quiet) (holding "Ahri") "Ahri" w
                     = (Ready nine_perks, holding "Ahri", w)) by reflexivity.
  assert (Hread : get_pages (Outside := quiet) w
                  = (Some [own_page; auto_page], (get_pages (Outside := quiet) w).2))
    by reflexivity.
  exact (apply_result_by_path (H := quiet) _ _ _ _ _ _ _ _ Hprepare Hread).
Defined.

(** The list is empty, the [POST] is answered with the id 7, and the
    next read shows the created page: the second call updates page 7. *)
Lemma apply_creates_then_updates_witness :
  let w := Scripted.script [Some []; Some [own_page; created_page]]
             [Some Lcu.EmptyDict] [Some (Lcu.Dict (Some 7))] [] in
  let first := apply_runes_for_champion (H := quiet) (holding "Ahri") "Ahri" w in
  let second := apply_runes_for_champion (H := quiet) first.1.2 "Ahri" first.2 in
  first.1.1 = Return true ∧
  current_page_id first.1.2 = Some 7 ∧
  second.1.1 = Return true ∧
  Scripted.calls second.2 =
    [Scripted.GetPages; Scripted.PostPage (body_of "Ahri" nine_perks);
     Scripted.GetPages; Scripted.PutPage 7 (body_of "Ahri" nine_perks)].
Proof.
  intros w.
  assert (Hprepare : prepare (H := quiet) (holding "Ahri") "Ahri" w
                     = (Ready nine_perks, holding "Ahri", w)) by reflexivity.
  assert (Hread : get_pages (Outside := quiet) w
                  = (Some [], (Scripted.next_pages w).2)) by reflexivity.
  assert (Hpost : post_page (Outside := quiet) (body_of "Ahri" nine_perks)
                    (Scripted.next_pages w).2
                  = (Some (Lcu.Dict (Some 7)),
                     (Scripted.next_post (body_of "Ahri" nine_perks)
                        (Scripted.next_pages w).2).2)) by reflexivity.
  destruct (apply_creates_then_updates (H := quiet) _ _ _ _ _ _ _ _ _ _
              Hprepare Hread eq_refl Hpost) as (Hfirst & Hrecorded & Hsecond).
  cbv zeta. rewrite Hfirst. cbn [fst snd].
  split; [done|]. split; [done|].
  set (w3 := (Scripted.next_post (body_of "Ahri" nine_perks)
                (Scripted.next_pages w).2).2).
  assert (Hback : get_pages (Outside := quiet) w3
                  = (Some [own_page; created_page], (Scripted.next_pages w3).2))
    by reflexivity.
  rewrite (Hsecond _ _ _ [own_page] created_page [] Hback eq_refl eq_refl
             created_page_tagged before_untagged).
  by vm_compute.
Defined.

(** C4, as the claim words it, fails: the id 7 is recorded, the next
    read of the pages comes back null, and the second call for the
    same champion creates another page instead of updating page 7. *)
Lemma apply_creates_twice :
  let w := Scripted.script [Some []; None] []
             [Some (Lcu.Dict (Some 7)); Some (Lcu.Dict (Some 8))] [] in
  let first := apply_runes_for_champion (H := quiet) (holding "Ahri") "Ahri" w in
  let second := apply_runes_for_champion (H := quiet) first.1.2 "Ahri" first.2 in
  first.1.1 = Return true ∧
  current_page_id first.1.2 = Some 7 ∧
  second.1.1 = Return true ∧
  current_page_id second.1.2 = Some 8 ∧
  Scripted.calls second.2 =
    [Scripted.GetPages; Scripted.PostPage (body_of "Ahri" nine_perks);
     Scripted.GetPages; Scripted.PostPage (body_of "Ahri" nine_perks)].
Proof. by vm_compute. Qed.

End ApplyExamples.

(** ** The monitor: each lock-in is handled once *)

Module MonitorFacts.
Import RuneManager ChampionSelectMonitor Session.

Lemma occurrences_absent (id : option Z) (l : list (option Z)) :
  id ∉ l → length (filter (fun logged => logged = id) l) = 0%nat.
Proof.
  induction l as [|x l IH]; [done|].
  rewrite not_elem_of_cons. intros [Hne Hnotin].
  rewrite filter_cons. destruct (decide (x = id)); [done | by apply IH].
Qed.

Lemma occurrences_once (id : option Z) (l : list (option Z)) :
  NoDup l → id ∈ l → length (filter (fun logged => logged = id) l) = 1%nat.
Proof.
  induction l as [|x l IH]; [by intros _ ?%elem_of_nil|].
  rewrite NoDup_cons, elem_of_cons. intros [Hfresh Hnodup] Hin.
  rewrite filter_cons. destruct (decide (x = id)) as [->|Hne].
  - simpl. f_equal. by apply occurrences_absent.
  - destruct Hin as [->|Hin]; [done | by apply IH].
Qed.

Lemma count_id_absent id log : id ∉ ids_of log → count_id id log = 0%nat.
Proof. apply occurrences_absent. Qed.

Lemma count_id_once id log :
  NoDup (ids_of log) → id ∈ ids_of log → count_id id log = 1%nat.
Proof. apply occurrences_once. Qed.

Lemma grows_nothing subject self :
  grows subject (effective subject self) [] self.
Proof.
  unfold grows, ids_of. simpl. split; [set_solver|].
  split; [constructor | set_solver].
Qed.

Lemma grows_trans subject before log1 self1 log2 self2 :
  grows subject before log1 self1 →
  grows subject (effective subject self1) log2 self2 →
  grows subject before (log1 ++ log2) self2.
Proof.
  intros (Hset1 & Hnodup1 & Hnew1) (Hset2 & Hnodup2 & Hnew2).
  unfold grows, ids_of in *. rewrite fmap_app. split; [|split].
  - rewrite Hset2, Hset1, list_to_set_app_L. set_solver.
  - apply NoDup_app. split; [done|]. split; [|done].
    intros id Hin1 Hin2. apply (Hnew2 id Hin2). rewrite Hset1. set_solver.
  - intros id [Hin|Hin]%elem_of_app; [by apply Hnew1|].
    intros Hbefore. apply (Hnew2 id Hin). rewrite Hset1. set_solver.
Qed.

Lemma grows_keeps subject before log self' id :
  grows subject before log self' →
  id ∈ before → id ∈ effective subject self'.
Proof. intros (-> & _ & _). set_solver. Qed.

Lemma grows_logged subject before log self' id :
  grows subject before log self' →
  id ∈ effective subject self' → id ∉ before → id ∈ ids_of log.
Proof. intros (-> & _ & _). set_solver. Qed.

Lemma effective_subset subject self :
  effective subject self ⊆ processed_action_ids self.
Proof. unfold effective. by case_bool_decide; set_solver. Qed.

Lemma effective_current subject self :
  current_champion self = Some subject →
  effective subject self = processed_action_ids self.
Proof. intros Hcurrent. unfold effective. by rewrite bool_decide_true. Qed.

Section WithOutside.
Context {World : Type} `{Outside World}.

(** [on_champion_locked] adds the id before anything else, and
    what the apply and its retry come to does not show in the
    monitor. *)
Lemma on_champion_locked_monitor (s : system World) champion_name id :
  id ∉ processed_action_ids (monitor s) →
  monitor (on_champion_locked s champion_name id).1 = add_processed id (monitor s) ∧
  (on_champion_locked s champion_name id).2 = [(champion_name, id)].
Proof.
  intros Hnew. unfold on_champion_locked. rewrite bool_decide_false by done.
  by destruct (apply_with_retry _ _ _).
Qed.

Lemma on_champion_locked_known (s : system World) champion_name id :
  id ∈ processed_action_ids (monitor s) →
  on_champion_locked s champion_name id = (s, []).
Proof.
  intros Hknown. unfold on_champion_locked. by rewrite bool_decide_true.
Qed.

Lemma on_champion_locked_grows (s : system World) subject id :
  current_champion (monitor s) = Some subject →
  grows subject (effective subject (monitor s))
    (on_champion_locked s subject id).2
    (monitor (on_champion_locked s subject id).1) ∧
  id ∈ effective subject (monitor (on_champion_locked s subject id).1).
Proof.
  intros Hcurrent.
  destruct (decide (id ∈ processed_action_ids (monitor s))) as [Hknown|Hnew].
  - rewrite on_champion_locked_known by done. simpl.
    split; [apply grows_nothing | by rewrite effective_current].
  - destruct (on_champion_locked_monitor s subject id Hnew) as [-> ->].
    assert (Hadd : effective subject (add_processed id (monitor s))
                   = {[ id ]} ∪ effective subject (monitor s)).
    { by rewrite !effective_current. }
    split; [|rewrite Hadd; set_solver].
    unfold grows, ids_of. simpl. rewrite Hadd, effective_current by done.
    split; [set_solver|]. split; [apply NoDup_singleton|].
    by intros ? ->%list_elem_of_singleton.
Qed.

(** The step of [visit_action] once the champion is resolved. *)
Lemma resolved_action_grows (s : system World) subject (flag : bool) id w :
  let self :=
    if bool_decide (Some subject = current_champion (monitor s))
    then monitor s else change_champion subject (monitor s) in
  let s1 := {| monitor := self; manager := manager s; world := w |} in
  let step :=
    if (flag && negb (bool_decide (id ∈ processed_action_ids self)))%bool
    then on_champion_locked s1 subject id else (s1, []) in
  grows subject (effective subject (monitor s)) step.2 (monitor step.1) ∧
  current_champion (monitor step.1) = Some subject ∧
  (flag = true → id ∈ effective subject (monitor step.1)).
Proof.
  intros self s1 step.
  assert (Hcurrent : current_champion self = Some subject).
  { subst self. by case_bool_decide. }
  assert (Hsame : effective subject self = effective subject (monitor s)).
  { subst self. case_bool_decide as Hcase; [done|].
    unfold effective at 2. rewrite bool_decide_false by congruence.
    by rewrite effective_current. }
  rewrite <- Hsame. subst step.
  destruct (flag && negb (bool_decide (id ∈ processed_action_ids self)))%bool
    eqn:Hgo.
  - destruct (on_champion_locked_grows s1 subject id Hcurrent) as [Hgrows Hin].
    split; [done|]. split; [|done].
    apply andb_true_iff in Hgo as [_ Hnew%negb_true_iff%bool_decide_eq_false].
    by destruct (on_champion_locked_monitor s1 subject id Hnew) as [-> _].
  - simpl. split; [apply grows_nothing|]. split; [done|].
    intros ->. simpl in Hgo. apply negb_false_iff, bool_decide_eq_true in Hgo.
    by rewrite effective_current.
Qed.

Lemma visit_action_grows subject pid cell action (s : system World) :
  one_subject subject →
  grows subject (effective subject (monitor s))
    (visit_action pid cell action s).2
    (monitor (visit_action pid cell action s).1).
Proof.
  intros Hone. unfold visit_action.
  case_bool_decide; [|apply grows_nothing].
  destruct (Lcu.championId action) as [champion_id|]; [|apply grows_nothing].
  destruct (champion_id =? 0); [apply grows_nothing|].
  destruct (get_champion pid champion_id (world s)) as [answer w] eqn:Hanswer.
  destruct answer as [cd|]; [|apply grows_nothing].
  destruct (Lcu.champion_name cd) as [[|c rest]|] eqn:Hname;
    [apply grows_nothing| |apply grows_nothing].
  assert (String c rest = subject) as ->.
  { apply (Hone pid champion_id (world s) cd); [by rewrite Hanswer|done|done]. }
  apply (resolved_action_grows s _ _ _ w).
Qed.

Lemma visit_action_locks who subject pid cell action (s : system World) :
  client_answers who subject →
  is_lock_in cell action →
  Lcu.action_id action ∈
    effective subject (monitor (visit_action pid cell action s).1).
Proof.
  intros (Hsubject & _ & Hresolves) (Hactor & (champion_id & Hchampion & Hnonzero) & Hdone).
  unfold visit_action. rewrite bool_decide_true by done. rewrite Hchampion.
  destruct (Z.eqb_spec champion_id 0) as [?|_]; [done|].
  specialize (Hresolves pid champion_id (world s)).
  destruct (get_champion pid champion_id (world s)) as [answer w].
  simpl in Hresolves. subst answer. cbn [Lcu.champion_name].
  destruct subject as [|c rest]; [done|].
  apply (resolved_action_grows s _ _ _ w). by rewrite Hdone.
Qed.

(** The loops, one step at a time. *)
Lemma visit_group_cons pid cell action rest (s : system World) :
  visit_group pid cell (action :: rest) s =
    ((visit_group pid cell rest (visit_action pid cell action s).1).1,
     ((visit_action pid cell action s).2
        ++ (visit_group pid cell rest (visit_action pid cell action s).1).2)%list).
Proof.
  cbn [visit_group]. destruct (visit_action pid cell action s) as [s1 log1].
  cbn [fst snd]. by destruct (visit_group pid cell rest s1).
Qed.

Lemma visit_groups_cons pid cell action_group rest (s : system World) :
  visit_groups pid cell (action_group :: rest) s =
    ((visit_groups pid cell rest (visit_group pid cell action_group s).1).1,
     ((visit_group pid cell action_group s).2
        ++ (visit_groups pid cell rest (visit_group pid cell action_group s).1).2)%list).
Proof.
  cbn [visit_groups]. destruct (visit_group pid cell action_group s) as [s1 log1].
  cbn [fst snd]. by destruct (visit_groups pid cell rest s1).
Qed.

Lemma handle_all_cons (s : system World) message rest :
  handle_all s (message :: rest) =
    ((handle_all (handle_ws_message s message).1 rest).1,
     ((handle_ws_message s message).2
        ++ (handle_all (handle_ws_message s message).1 rest).2)%list).
Proof.
  cbn [handle_all]. destruct (handle_ws_message s message) as [s1 log1].
  cbn [fst snd]. by destruct (handle_all s1 rest).
Qed.

Lemma visit_group_grows subject pid cell action_group (s : system World) :
  one_subject subject →
  grows subject (effective subject (monitor s))
    (visit_group pid cell action_group s).2
    (monitor (visit_group pid cell action_group s).1).
Proof.
  intros Hone. revert s.
  induction action_group as [|action rest IH]; intros s.
  - apply grows_nothing.
  - rewrite visit_group_cons. cbn [fst snd].
    eapply grows_trans; [by apply visit_action_grows | apply IH].
Qed.

Lemma visit_groups_grows subject pid cell groups (s : system World) :
  one_subject subject →
  grows subject (effective subject (monitor s))
    (visit_groups pid cell groups s).2
    (monitor (visit_groups pid cell groups s).1).
Proof.
  intros Hone. revert s.
  induction groups as [|action_group rest IH]; intros s.
  - apply grows_nothing.
  - rewrite visit_groups_cons. cbn [fst snd].
    eapply grows_trans; [by apply visit_group_grows | apply IH].
Qed.

Lemma handle_session_grows subject data (s : system World) :
  one_subject subject →
  grows subject (effective subject (monitor s))
    (handle_session data s).2 (monitor (handle_session data s).1).
Proof.
  intros Hone. unfold handle_session.
  destruct (get_current_summoner (world s)) as [[local_player|] w];
    [|apply grows_nothing].
  destruct (find_local_cell _ _) as [local_cell|]; [|apply grows_nothing].
  by apply (visit_groups_grows subject _ _ _
              {| monitor := monitor s; manager := manager s; world := w |}).
Qed.

(** An event that does not carry the terminal phase only adds
    lock-ins for ids that were not yet processed. *)
Lemma handle_ws_message_grows subject (s : system World) message :
  one_subject subject →
  phase_of message ≠ Some "None" →
  grows subject (effective subject (monitor s))
    (handle_ws_message s message).2
    (monitor (handle_ws_message s message).1).
Proof.
  intros Hone Hphase. destruct message as [|uri data]; [apply grows_nothing|].
  simpl in Hphase. unfold handle_ws_message.
  case_bool_decide; [|apply grows_nothing]. cbn [negb].
  rewrite (bool_decide_false (_ = Some "None")) by done.
  rewrite andb_false_r.
  set (self := if (_ && _)%bool then _ else _).
  assert (Hsame : effective subject self = effective subject (monitor s)).
  { subst self. by destruct (_ && _)%bool. }
  rewrite <- Hsame.
  destruct data as [data|]; [|apply grows_nothing].
  destruct (PyStr.truthy_str (current_phase self)); [|apply grows_nothing].
  by apply (handle_session_grows subject data
              {| monitor := self; manager := manager s; world := world s |}).
Qed.

Lemma handle_all_grows subject (s : system World) messages :
  one_subject subject →
  same_session messages →
  grows subject (effective subject (monitor s))
    (handle_all s messages).2 (monitor (handle_all s messages).1).
Proof.
  intros Hone Hsession. revert s.
  induction Hsession as [|message rest Hphase _ IH]; intros s.
  - apply grows_nothing.
  - rewrite handle_all_cons. cbn [fst snd].
    eapply grows_trans; [by apply handle_ws_message_grows | apply IH].
Qed.

Lemma client_answers_one_subject who subject :
  client_answers who subject → one_subject subject.
Proof.
  intros (_ & _ & Hresolves) pid champion_id w cd champion_name Hanswer Hname _.
  rewrite Hresolves in Hanswer. injection Hanswer as <-.
  simpl in Hname. congruence.
Qed.

(** A completed pick of the local player is in the effective set
    once its group, its session, its event have been handled. *)
Lemma visit_group_locks who subject pid cell action action_group
    (s : system World) :
  client_answers who subject →
  action ∈ action_group → is_lock_in cell action →
  Lcu.action_id action ∈
    effective subject (monitor (visit_group pid cell action_group s).1).
Proof.
  intros Hclient Hin Hlock. revert s.
  induction Hin as [action rest|action other rest Hin IH]; intros s;
    rewrite visit_group_cons; cbn [fst].
  - eapply grows_keeps.
    + apply visit_group_grows. by apply (client_answers_one_subject who).
    + by apply (visit_action_locks who).
  - by apply IH.
Qed.

Lemma visit_groups_locks who subject pid cell action action_group groups
    (s : system World) :
  client_answers who subject →
  action_group ∈ groups → action ∈ action_group → is_lock_in cell action →
  Lcu.action_id action ∈
    effective subject (monitor (visit_groups pid cell groups s).1).
Proof.
  intros Hclient Hgroup Hin Hlock. revert s.
  induction Hgroup as [action_group rest|action_group other rest Hgroup IH];
    intros s; rewrite visit_groups_cons; cbn [fst].
  - eapply grows_keeps.
    + apply visit_groups_grows. by apply (client_answers_one_subject who).
    + by apply (visit_group_locks who).
  - by apply IH.
Qed.

Lemma handle_ws_message_locks who subject id (s : system World) message :
  client_answers who subject →
  phase_of message ≠ Some "None" →
  shows_lock_in who id message →
  id ∈ effective subject (monitor (handle_ws_message s message).1).
Proof.
  intros Hclient Hterminal
    (data & phase & local_cell & action_group & action
     & -> & Hphase & Hnonempty & Hcell & Hgroup & Hin & Hlock & <-).
  unfold handle_ws_message. rewrite bool_decide_true by done. cbn [negb].
  simpl in Hterminal. cbn [mbind option_bind]. rewrite Hphase in *.
  rewrite (bool_decide_false (_ = Some "None")) by done.
  rewrite andb_false_r.
  set (self := if (_ && _)%bool then _ else _).
  assert (Htruthy : PyStr.truthy_str (current_phase self) = true).
  { subst self. rewrite ValidationFacts.truthy_str_Some by done. simpl.
    case_bool_decide as Hcase; simpl.
    - rewrite <- Hcase. by apply ValidationFacts.truthy_str_Some.
    - by apply ValidationFacts.truthy_str_Some. }
  rewrite Htruthy. unfold handle_session. cbn [world monitor manager].
  pose proof Hclient as (Hsubject & Hwho & Hresolves).
  specialize (Hwho (world s)).
  destruct (get_current_summoner (world s)) as [answer w].
  simpl in Hwho. subst answer. rewrite Hcell.
  by apply (visit_groups_locks who _ _ _ action action_group).
Qed.

Lemma handle_all_locks who subject id (s : system World) messages :
  client_answers who subject →
  same_session messages →
  Exists (shows_lock_in who id) messages →
  id ∈ effective subject (monitor (handle_all s messages).1).
Proof.
  intros Hclient Hsession Hshown. revert s.
  induction Hshown as [message rest Hshows|message rest Hshown IH];
    intros s; rewrite handle_all_cons; cbn [fst];
    apply Forall_cons in Hsession as [Hphase Hsession].
  - eapply grows_keeps.
    + apply handle_all_grows; [by apply (client_answers_one_subject who) | done].
    + by apply (handle_ws_message_locks who).
  - by apply IH.
Qed.

(** From a state where [id] is not processed, events of one
    session, one of which shows the lock-in [id], log it once. *)
Lemma logged_once who subject (s : system World) messages id :
  client_answers who subject →
  same_session messages →
  Exists (shows_lock_in who id) messages →
  id ∉ processed_action_ids (monitor s) →
  count_id id (handle_all s messages).2 = 1%nat.
Proof.
  intros Hclient Hsession Hshown Hnew.
  pose proof (handle_all_grows subject s messages
                (client_answers_one_subject who subject Hclient) Hsession)
    as Hgrows.
  apply count_id_once; [apply Hgrows|].
  eapply grows_logged; [done | by apply (handle_all_locks who) |].
  intros Hin. by apply Hnew, (effective_subset subject).
Qed.


(** The same steps, with the condition on the actions delivered
    instead of on the client. *)
Lemma one_subject_unchanged subject messages :
  one_subject subject → unchanged_subject subject messages.
Proof.
  intros Hone. apply Forall_forall. intros [|uri [data|]] _; [done| |done].
  intros _ local_cell _. apply Forall_forall. intros action_group _.
  apply Forall_forall. intros action _ _ champion_id _ _.
  intros summoner w cd champion_name. apply Hone.
Qed.

Lemma visit_action_keeps subject pid cell action (s : system World) :
  names_subject subject cell action →
  grows subject (effective subject (monitor s))
    (visit_action pid cell action s).2
    (monitor (visit_action pid cell action s).1).
Proof.
  intros Hnames. unfold visit_action.
  case_bool_decide as Hcell; [|apply grows_nothing].
  destruct (Lcu.championId action) as [champion_id|] eqn:Hchampion;
    [|apply grows_nothing].
  destruct (Z.eqb_spec champion_id 0) as [|Hnonzero]; [apply grows_nothing|].
  destruct (get_champion pid champion_id (world s)) as [answer w] eqn:Hanswer.
  destruct answer as [cd|]; [|apply grows_nothing].
  destruct (Lcu.champion_name cd) as [[|c rest]|] eqn:Hname;
    [apply grows_nothing| |apply grows_nothing].
  assert (String c rest = subject) as ->.
  { apply (Hnames Hcell champion_id Hchampion Hnonzero pid (world s) cd);
      [by rewrite Hanswer|done|done]. }
  apply (resolved_action_grows s _ _ _ w).
Qed.

Lemma visit_group_keeps subject pid cell action_group (s : system World) :
  Forall (names_subject subject cell) action_group →
  grows subject (effective subject (monitor s))
    (visit_group pid cell action_group s).2
    (monitor (visit_group pid cell action_group s).1).
Proof.
  intros Hnames. revert s.
  induction Hnames as [|action rest Haction _ IH]; intros s.
  - apply grows_nothing.
  - rewrite visit_group_cons. cbn [fst snd].
    eapply grows_trans; [by apply visit_action_keeps | apply IH].
Qed.

Lemma visit_groups_keeps subject pid cell groups (s : system World) :
  Forall (Forall (names_subject subject cell)) groups →
  grows subject (effective subject (monitor s))
    (visit_groups pid cell groups s).2
    (monitor (visit_groups pid cell groups s).1).
Proof.
  intros Hnames. revert s.
  induction Hnames as [|action_group rest Hgroup _ IH]; intros s.
  - apply grows_nothing.
  - rewrite visit_groups_cons. cbn [fst snd].
    eapply grows_trans; [by apply visit_group_keeps | apply IH].
Qed.

Lemma handle_session_keeps subject data (s : system World) :
  (∀ local_cell,
     local_cell_in data local_cell →
     Forall (Forall (names_subject subject local_cell)) (Lcu.actions data)) →
  grows subject (effective subject (monitor s))
    (handle_session data s).2 (monitor (handle_session data s).1).
Proof.
  intros Hnames. unfold handle_session.
  destruct (get_current_summoner (world s)) as [[local_player|] w] eqn:Hwho;
    [|apply grows_nothing].
  destruct (find_local_cell _ _) as [local_cell|] eqn:Hcell;
    [|apply grows_nothing].
  apply (visit_groups_keeps subject _ _ _
           {| monitor := monitor s; manager := manager s; world := w |}).
  apply Hnames. exists (world s), local_player. by rewrite Hwho.
Qed.

Lemma handle_ws_message_keeps subject (s : system World) message :
  keeps_subject subject message →
  phase_of message ≠ Some "None" →
  grows subject (effective subject (monitor s))
    (handle_ws_message s message).2
    (monitor (handle_ws_message s message).1).
Proof.
  intros Hnames Hphase. destruct message as [|uri data]; [apply grows_nothing|].
  simpl in Hphase. unfold handle_ws_message.
  case_bool_decide as Huri; [|apply grows_nothing]. cbn [negb].
  rewrite (bool_decide_false (_ = Some "None")) by done.
  rewrite andb_false_r.
  set (self := if (_ && _)%bool then _ else _).
  assert (Hsame : effective subject self = effective subject (monitor s)).
  { subst self. by destruct (_ && _)%bool. }
  rewrite <- Hsame.
  destruct data as [data|]; [|apply grows_nothing].
  destruct (PyStr.truthy_str (current_phase self)); [|apply grows_nothing].
  apply (handle_session_keeps subject data
           {| monitor := self; manager := manager s; world := world s |}).
  by apply Hnames.
Qed.

Lemma handle_all_keeps subject (s : system World) messages :
  unchanged_subject subject messages →
  same_session messages →
  grows subject (effective subject (monitor s))
    (handle_all s messages).2 (monitor (handle_all s messages).1).
Proof.
  intros Hnames. revert s.
  induction Hnames as [|message rest Hmessage _ IH]; intros s Hsession.
  - apply grows_nothing.
  - apply Forall_cons in Hsession as [Hphase Hsession].
    rewrite handle_all_cons. cbn [fst snd].
    eapply grows_trans; [by apply handle_ws_message_keeps | by apply IH].
Qed.

(** A completed pick of [subject] by the local player is in the
    effective set once its action, its group, its event have been
    handled. *)
Lemma visit_action_picks subject pid cell action (s : system World) :
  subject ≠ "" →
  is_pick_of subject cell action →
  Lcu.action_id action ∈
    effective subject (monitor (visit_action pid cell action s).1).
Proof.
  intros Hsubject (Hactor & (champion_id & Hchampion & Hnonzero & Hresolves) & Hdone).
  unfold visit_action. rewrite bool_decide_true by done. rewrite Hchampion.
  destruct (Z.eqb_spec champion_id 0) as [?|_]; [done|].
  specialize (Hresolves pid (world s)).
  destruct (get_champion pid champion_id (world s)) as [answer w].
  simpl in Hresolves. subst answer. cbn [Lcu.champion_name].
  destruct subject as [|c rest]; [done|].
  apply (resolved_action_grows s _ _ _ w). by rewrite Hdone.
Qed.

Lemma visit_group_picks subject pid cell action action_group
    (s : system World) :
  subject ≠ "" →
  Forall (names_subject subject cell) action_group →
  action ∈ action_group → is_pick_of subject cell action →
  Lcu.action_id action ∈
    effective subject (monitor (visit_group pid cell action_group s).1).
Proof.
  intros Hsubject Hnames Hin Hpick. revert s Hnames.
  induction Hin as [action rest|action other rest Hin IH]; intros s Hnames;
    apply Forall_cons in Hnames as [Hfirst Hrest];
    rewrite visit_group_cons; cbn [fst].
  - eapply grows_keeps; [by apply visit_group_keeps|].
    by apply visit_action_picks.
  - by apply IH.
Qed.

Lemma visit_groups_picks subject pid cell action action_group groups
    (s : system World) :
  subject ≠ "" →
  Forall (Forall (names_subject subject cell)) groups →
  action_group ∈ groups → action ∈ action_group →
  is_pick_of subject cell action →
  Lcu.action_id action ∈
    effective subject (monitor (visit_groups pid cell groups s).1).
Proof.
  intros Hsubject Hnames Hgroup Hin Hpick. revert s Hnames.
  induction Hgroup as [action_group rest|action_group other rest Hgroup IH];
    intros s Hnames; apply Forall_cons in Hnames as [Hfirst Hrest];
    rewrite visit_groups_cons; cbn [fst].
  - eapply grows_keeps; [by apply visit_groups_keeps|].
    by apply visit_group_picks.
  - by apply IH.
Qed.

Lemma handle_ws_message_picks who subject id (s : system World) message :
  subject ≠ "" →
  (∀ w, (get_current_summoner w).1 = Some who) →
  keeps_subject subject message →
  phase_of message ≠ Some "None" →
  shows_pick who subject id message →
  id ∈ effective subject (monitor (handle_ws_message s message).1).
Proof.
  intros Hsubject Hwho Hnames Hterminal
    (data & phase & local_cell & action_group & action
     & -> & Hphase & Hnonempty & Hcell & Hgroup & Hin & Hpick & <-).
  unfold handle_ws_message. rewrite bool_decide_true by done. cbn [negb].
  simpl in Hterminal. cbn [mbind option_bind]. rewrite Hphase in *.
  rewrite (bool_decide_false (_ = Some "None")) by done.
  rewrite andb_false_r.
  set (self := if (_ && _)%bool then _ else _).
  assert (Htruthy : PyStr.truthy_str (current_phase self) = true).
  { subst self. rewrite ValidationFacts.truthy_str_Some by done. simpl.
    case_bool_decide as Hcase; simpl.
    - rewrite <- Hcase. by apply ValidationFacts.truthy_str_Some.
    - by apply ValidationFacts.truthy_str_Some. }
  rewrite Htruthy. unfold handle_session. cbn [world monitor manager].
  pose proof (Hwho (world s)) as Hanswer.
  destruct (get_current_summoner (world s)) as [answer w].
  simpl in Hanswer. subst answer. rewrite Hcell.
  apply (visit_groups_picks subject _ _ action action_group); [done| |done..].
  apply Hnames; [done|]. exists (world s), who. by rewrite Hwho.
Qed.

Lemma handle_all_picks who subject id (s : system World) messages :
  subject ≠ "" →
  (∀ w, (get_current_summoner w).1 = Some who) →
  unchanged_subject subject messages →
  same_session messages →
  Exists (shows_pick who subject id) messages →
  id ∈ effective subject (monitor (handle_all s messages).1).
Proof.
  intros Hsubject Hwho Hnames Hsession Hshown. revert s.
  induction Hshown as [message rest Hshows|message rest Hshown IH];
    intros s; rewrite handle_all_cons; cbn [fst];
    apply Forall_cons in Hsession as [Hphase Hsession];
    apply Forall_cons in Hnames as [Hmessage Hnames].
  - eapply grows_keeps; [by apply handle_all_keeps|].
    by apply (handle_ws_message_picks who).
  - by apply IH.
Qed.

(** C1. Let events of one session (none carries the terminal phase)
    be handled from any state, with any client, and let the subject
    be unchanged over the events delivered: every action of the local
    player in them that names a champion names [subject]. Then no
    action id is logged, and so applied for, more than once; an id
    that is in the processed set while the subject is the current
    champion is not logged at all; and if the client gives the local
    summoner and at least one of the events, and so also two or more,
    shows a completed pick of [subject] by the local player with the
    id [id], not in the processed set at the start, then [id] is
    logged exactly once. Membership in the set alone decides. *)
Theorem lock_in_handled_exactly_once subject (s : system World) messages id :
  unchanged_subject subject messages →
  same_session messages →
  let log := (handle_all s messages).2 in
  (count_id id log ≤ 1)%nat ∧
  (current_champion (monitor s) = Some subject →
   id ∈ processed_action_ids (monitor s) → count_id id log = 0%nat) ∧
  (∀ who,
     subject ≠ "" →
     (∀ w, (get_current_summoner w).1 = Some who) →
     Exists (shows_pick who subject id) messages →
     id ∉ processed_action_ids (monitor s) → count_id id log = 1%nat).
Proof.
  intros Hnames Hsession log. subst log.
  destruct (handle_all_keeps subject s messages Hnames Hsession)
    as (Hset & Hnodup & Hnew).
  split; [|split].
  - destruct (decide (id ∈ ids_of (handle_all s messages).2)) as [Hin|Hnotin].
    + by rewrite count_id_once.
    + rewrite count_id_absent by done. lia.
  - intros Hcurrent Hknown. apply count_id_absent. intros Hin.
    apply (Hnew id Hin). by rewrite effective_current.
  - intros who Hsubject Hwho Hshown Hfresh. apply count_id_once; [done|].
    eapply grows_logged; [by apply handle_all_keeps| |].
    + by apply (handle_all_picks who).
    + intros Hin. by apply Hfresh, (effective_subset subject).
Qed.

(** C3. An event whose phase is ["None"], handled by a monitor
    whose phase is not yet ["None"], logs nothing and clears the
    current champion and the processed set; so in the session that
    follows, any id, also one that was processed before, is logged
    once again when an event shows it. *)
Theorem terminal_phase_resets (s : system World) data :
  Lcu.timer_phase data = Some "None" →
  current_phase (monitor s) ≠ Some "None" →
  let ended := handle_ws_message s (Lcu.Event (Some session_uri) (Some data)) in
  ended.2 = [] ∧
  current_champion (monitor ended.1) = None ∧
  processed_action_ids (monitor ended.1) = ∅ ∧
  ∀ who subject messages id,
    client_answers who subject →
    same_session messages →
    Exists (shows_lock_in who id) messages →
    count_id id (handle_all ended.1 messages).2 = 1%nat.
Proof.
  intros Hphase Hcurrent ended.
  assert (Hended : ended =
    ({| monitor := reset (set_phase (Some "None") (monitor s));
        manager := manager s; world := world s |}, [])).
  { subst ended. unfold handle_ws_message.
    rewrite bool_decide_true by done. cbn [negb mbind option_bind].
    rewrite Hphase. rewrite (bool_decide_false (_ = current_phase _)) by done.
    by rewrite bool_decide_true. }
  rewrite Hended. cbn [fst snd monitor]. split; [done|].
  split; [done|]. split; [done|].
  intros who subject messages id Hclient Hsession Hshown.
  apply (logged_once who subject); [done..|]. simpl. set_solver.
Qed.

End WithOutside.

End MonitorFacts.

(** ** The monitor on scripted clients *)

Module MonitorExamples.
Import RuneManager ChampionSelectMonitor Session Samples MonitorFacts.

Lemma ahri_client_answers : client_answers (H := ahri_client) local_summoner "Ahri".
Proof. by repeat split. Qed.


Lemma pick_event_shows phase id :
  phase ≠ "" → shows_lock_in local_summoner (Some id) (pick_event phase id true).
Proof.
  intros Hphase. eexists _, phase, 0, _, _. split; [done|]. split; [done|].
  split; [done|]. split; [done|].
  split; [apply list_elem_of_further, list_elem_of_here|].
  split; [apply list_elem_of_here|]. split; [|done].
  split; [done|]. split; [by exists 103 | done].
Qed.

Lemma pick_events_same_session id :
  same_session [pick_event "BAN_PICK" id false; pick_event "BAN_PICK" id true;
                pick_event "FINALIZATION" id true].
Proof. by repeat constructor. Qed.

(** A client that knows two champions: the local player's pick is on
    Ahri in each event, whatever the other player picks. *)
Lemma pick_event_keeps_subject phase id completed :
  keeps_subject (H := two_champions_client) "Ahri" (pick_event phase id completed).
Proof.
  intros _ local_cell (w & local_player & [= <-] & [= <-]).
  constructor; [|constructor; [|constructor]].
  - constructor; [|constructor]. by intros [=].
  - constructor; [|constructor].
    intros _ champion_id [= <-] _ summoner w' cd champion_name [= <-] [= <-] _.
    reflexivity.
Qed.

Lemma pick_event_shows_pick phase id :
  phase ≠ "" →
  shows_pick (H := two_champions_client) local_summoner "Ahri" (Some id)
    (pick_event phase id true).
Proof.
  intros Hphase. eexists _, phase, 0, _, _. split; [done|]. split; [done|].
  split; [done|]. split; [done|].
  split; [apply list_elem_of_further, list_elem_of_here|].
  split; [apply list_elem_of_here|]. split; [|done].
  split; [done|]. split; [|done]. exists 103. by repeat split.
Qed.

(** With the client that knows two champions, the pick 5 is hovered,
    then shown completed twice: one lock-in. *)
Lemma lock_in_handled_exactly_once_witness :
  count_id (Some 5)
    (handle_all (H := two_champions_client) fresh_system
       [pick_event "BAN_PICK" 5 false; pick_event "BAN_PICK" 5 true;
        pick_event "FINALIZATION" 5 true]).2 = 1%nat.
Proof.
  assert (Hnames : unchanged_subject (H := two_champions_client) "Ahri"
            [pick_event "BAN_PICK" 5 false; pick_event "BAN_PICK" 5 true;
             pick_event "FINALIZATION" 5 true])
    by (repeat (constructor; [apply pick_event_keeps_subject|]); constructor).
  apply (proj2 (proj2 (lock_in_handled_exactly_once (H := two_champions_client)
                         "Ahri" fresh_system _ (Some 5)
                         Hnames (pick_events_same_session 5)))
           local_summoner).
  - discriminate.
  - reflexivity.
  - apply Exists_cons_tl, Exists_cons_hd. by apply pick_event_shows_pick.
  - apply not_elem_of_empty.
Defined.

(** The same run, evaluated: one line in the log, and one read and
    one update of the pages. *)
Example two_deliveries_one_lock_in :
  let run := handle_all (H := ahri_client) fresh_system
               [pick_event "BAN_PICK" 5 false; pick_event "BAN_PICK" 5 true;
                pick_event "FINALIZATION" 5 true] in
  run.2 = [("Ahri", Some 5)] ∧
  Scripted.calls (world run.1) =
    [Scripted.GetSummoner; Scripted.GetChampion (Some 11) 103;
     Scripted.GetSummoner; Scripted.GetChampion (Some 11) 103;
     Scripted.GetPages; Scripted.PutPage 1 (body_of "Ahri" nine_perks);
     Scripted.GetSummoner; Scripted.GetChampion (Some 11) 103].
Proof. by vm_compute. Qed.

(** After the lock-in 5 the session ends; in the next session the
    id 5 is logged again. *)
Lemma terminal_phase_resets_witness :
  let before :=
    (handle_all (H := ahri_client) fresh_system [pick_event "BAN_PICK" 5 true]).1 in
  let ended := handle_ws_message (H := ahri_client) before end_event in
  processed_action_ids (monitor before) = {[ Some 5 ]} ∧
  processed_action_ids (monitor ended.1) = ∅ ∧
  count_id (Some 5)
    (handle_all (H := ahri_client) ended.1 [pick_event "BAN_PICK" 5 true]).2 = 1%nat.
Proof.
  intros before ended.
  assert (Hphase : current_phase (monitor before) ≠ Some "None") by by vm_compute.
  destruct (terminal_phase_resets (H := ahri_client) before end_data eq_refl Hphase)
    as (_ & _ & Hempty & Hagain).
  split; [by vm_compute|]. split; [exact Hempty|].
  apply (Hagain local_summoner "Ahri" _ (Some 5) ahri_client_answers).
  - by repeat constructor.
  - apply Exists_cons_hd. by apply pick_event_shows.
Defined.


(** In that run the apply returned false, the fetch of the retry
    returned false, and nothing was sent to the client's pages. *)
Example failing_system_fails :
  (apply_runes_for_champion (H := ahri_client) (manager failing_system) "Ahri"
     (world failing_system)).1.1 = Return false ∧
  Scripted.calls
    (world (on_champion_locked (H := ahri_client) failing_system "Ahri" (Some 5)).1)
    = [Scripted.RunScraper "ahri"; Scripted.RunScraper "ahri"].
Proof. by vm_compute. Qed.

(** A change of champion clears the set: the id 5, consumed for
    Ahri, is logged again for Lee Sin. *)
Example champion_change_clears :
  (handle_all (H := two_champions_client) fresh_system
     [pick_event "BAN_PICK" 5 true; pick_event "BAN_PICK" 5 true;
      repick_event "BAN_PICK" 5]).2
  = [("Ahri", Some 5); ("Lee Sin", Some 5)].
Proof. by vm_compute. Qed.

(** Without one subject the set does not hold: an event whose two
    actions resolve to two champions clears it at each action, and
    each delivery logs both again. *)
Example two_subjects_in_one_event :
  (handle_all (H := two_champions_client) fresh_system
     [ban_and_pick_event "BAN_PICK"; ban_and_pick_event "BAN_PICK"]).2
  = [("Lee Sin", Some 4); ("Ahri", Some 5); ("Lee Sin", Some 4); ("Ahri", Some 5)].
Proof. by vm_compute. Qed.

(** Events that are not handled: too short, for another topic, without
    data, or without a phase while the monitor has none. *)
Example ignored_events :
  handle_all (H := ahri_client) fresh_system
    [Lcu.Short;
     Lcu.Event (Some "/lol-gameflow/v1/session") (Some end_data);
     Lcu.Event None (Some end_data);
     Lcu.Event (Some session_uri) None;
     Lcu.Event (Some session_uri)
       (Some {| Lcu.timer_phase := None; Lcu.myTeam := []; Lcu.actions := [] |})]
  = (fresh_system, []).
Proof. by vm_compute. Qed.

End MonitorExamples.

(** ** Discovery of the client *)

Module DiscoveryFacts.
Import LCUConnection Discovery.

Lemma usable_cases (proc : process) :
  usable proc ∨ ¬ usable proc.
Proof.
  unfold usable.
  destruct (decide (name proc = client_name)) as [?|?]; [|right; tauto].
  destruct (first_with_prefix token_flag (cmdline proc)); [|right].
  - destruct (first_with_prefix port_flag (cmdline proc)); [left | right].
    + by repeat split.
    + by intros (_ & _ & [? ?]).
  - by intros (_ & [? ?] & _).
Qed.

(** A process that is not usable is passed over; at most it becomes
    the tracked process. *)
Lemma scan_processes_skip proc rest self :
  ¬ usable proc →
  scan_processes (proc :: rest) self = scan_processes rest self ∨
  scan_processes (proc :: rest) self = scan_processes rest (set_process proc self).
Proof.
  intros Hnot. cbn [scan_processes].
  destruct (String.eqb_spec (name proc) "LeagueClientUx.exe") as [Hname|_];
    [|by left].
  right.
  destruct (first_with_prefix "--remoting-auth-token=" (cmdline proc)) eqn:Htoken;
    [|done].
  destruct (first_with_prefix "--app-port=" (cmdline proc)) eqn:Hport; [|done].
  exfalso. apply Hnot. unfold usable, token_flag, port_flag.
  by rewrite Htoken, Hport.
Qed.

Lemma scan_processes_first before proc after token_arg port_arg self :
  Forall (fun q => ¬ usable q) before →
  name proc = client_name →
  first_with_prefix token_flag (cmdline proc) = Some token_arg →
  first_with_prefix port_flag (cmdline proc) = Some port_arg →
  scan_processes (before ++ proc :: after) self
    = (true, discovered proc token_arg port_arg self).
Proof.
  intros Hbefore Hname Htoken Hport. revert self.
  induction Hbefore as [|q before Hq _ IH]; intros self.
  - cbn [app scan_processes]. rewrite Hname. unfold client_name.
    rewrite String.eqb_refl. unfold token_flag, port_flag in *.
    by rewrite Htoken, Hport.
  - cbn [app].
    destruct (scan_processes_skip q (before ++ proc :: after) self Hq) as [->| ->].
    + apply IH.
    + by rewrite IH.
Qed.

Lemma scan_processes_none procs self :
  Forall (fun q => ¬ usable q) procs →
  (scan_processes procs self).1 = false ∧
  connected (scan_processes procs self).2 = connected self ∧
  auth_token (scan_processes procs self).2 = auth_token self ∧
  port (scan_processes procs self).2 = port self ∧
  headers (scan_processes procs self).2 = headers self ∧
  base_url (scan_processes procs self).2 = base_url self ∧
  ws_connected (scan_processes procs self).2 = ws_connected self.
Proof.
  intros Hnone. revert self.
  induction Hnone as [|q procs Hq _ IH]; intros self; [done|].
  destruct (scan_processes_skip q procs self Hq) as [->| ->]; [apply IH|].
  by destruct (IH (set_process q self)) as (-> & -> & -> & -> & -> & -> & ->).
Qed.

Lemma first_usable_split procs :
  Exists usable procs →
  ∃ before proc after,
    procs = (before ++ proc :: after)%list ∧ usable proc ∧
    Forall (fun q => ¬ usable q) before.
Proof.
  induction procs as [|q procs IH]; [by intros ?%Exists_nil|].
  intros Hexists. destruct (usable_cases q) as [Hq|Hq].
  - by exists [], q, procs.
  - apply Exists_cons in Hexists as [?|Hexists]; [done|].
    destruct (IH Hexists) as (before & proc & after & -> & Husable & Hnone).
    exists (q :: before), proc, after.
    split; [done|]. split; [done|]. by constructor.
Qed.

Lemma scan_processes_true_iff procs self :
  (scan_processes procs self).1 = true ↔ Exists usable procs.
Proof.
  split.
  - revert self. induction procs as [|q procs IH]; intros self; [done|].
    destruct (usable_cases q) as [Hq|Hq]; [intros _; by apply Exists_cons_hd|].
    destruct (scan_processes_skip q procs self Hq) as [->| ->];
      intros Hfound; apply Exists_cons_tl; by eapply IH.
  - intros (before & proc & after & -> & (Hname & [t Ht] & [p Hp]) & Hnone)
      %first_usable_split.
    by rewrite (scan_processes_first _ _ _ t p).
Qed.

Lemma usable_cases_all procs :
  Exists usable procs ∨ Forall (fun q => ¬ usable q) procs.
Proof.
  induction procs as [|q procs [IH|IH]].
  - right. constructor.
  - left. by apply Exists_cons_tl.
  - destruct (usable_cases q); [left; by apply Exists_cons_hd | right; by constructor].
Qed.

Lemma short_cut_iff o self :
  (connected self &&
   match process_ self with
   | Some p => is_running o p
   | None => false
   end)%bool = true ↔ still_running o self.
Proof.
  unfold still_running. rewrite andb_true_iff. split.
  - intros [Hconnected Hrunning]. split; [done|].
    destruct (process_ self) as [p|]; [by exists p | done].
  - intros [Hconnected (p & -> & Hrunning)]. done.
Qed.

End DiscoveryFacts.

(** ** Further properties of the connector *)

Module ConnectorProperties.
Import LCUConnection Discovery DiscoveryFacts MoreSamples.

(** X1. [find_league_client] returns true exactly when the connection
    is marked connected with its tracked process still running, or
    some process named [LeagueClientUx.exe] carries both the token and
    the port argument. Its result is the [connected] flag it leaves,
    and when it fails the token, the port, the headers and the base
    URL stay as they were. *)
Theorem find_league_client_iff (o : os) (self : t) :
  ((find_league_client o self).1 = true ↔
   still_running o self ∨ Exists usable (process_iter o)) ∧
  connected (find_league_client o self).2 = (find_league_client o self).1 ∧
  ((find_league_client o self).1 = false →
   auth_token (find_league_client o self).2 = auth_token self ∧
   port (find_league_client o self).2 = port self ∧
   headers (find_league_client o self).2 = headers self ∧
   base_url (find_league_client o self).2 = base_url self).
Proof.
  unfold find_league_client.
  destruct (connected self && _)%bool eqn:Hcut.
  - apply short_cut_iff in Hcut. cbn [fst snd].
    split; [by split; [left|]|]. split; [apply Hcut | done].
  - assert (Hnot : ¬ still_running o self).
    { intros Hrun%short_cut_iff. congruence. }
    split; [|split].
    + rewrite scan_processes_true_iff. split; [by right | by intros [?|?]].
    + destruct (scan_processes (process_iter o) (set_connected false self))
        as [found self'] eqn:Hscan. cbn [fst snd].
      destruct found.
      * apply (f_equal fst) in Hscan as Hfound. cbn [fst] in Hfound.
        apply scan_processes_true_iff, first_usable_split in Hfound
          as (before & proc & after & Heq & (Hname & [t Ht] & [p Hp]) & Hnone).
        rewrite Heq, (scan_processes_first _ _ _ t p) in Hscan by done.
        by injection Hscan as <-.
      * destruct (usable_cases_all (process_iter o)) as [Hsome|Hnone].
        -- apply (scan_processes_true_iff _ (set_connected false self)) in Hsome.
           rewrite Hscan in Hsome. done.
        -- destruct (scan_processes_none _ (set_connected false self) Hnone)
             as (_ & Hconnected & _). by rewrite Hscan in Hconnected.
    + intros Hfalse.
      destruct (usable_cases_all (process_iter o)) as [Hsome|Hnone].
      * apply (scan_processes_true_iff _ (set_connected false self)) in Hsome.
        congruence.
      * by destruct (scan_processes_none _ (set_connected false self) Hnone)
          as (_ & _ & -> & -> & -> & -> & _).
Qed.

(** X2. When the short cut does not apply, [find_league_client] takes
    its parameters from the first process of the list that is named
    [LeagueClientUx.exe] and has both arguments, and there from the
    first argument with each prefix: it tracks that process, keeps
    the text between the first [=] and the next as token and as port,
    and builds the header and the base URL from them. *)
Theorem find_league_client_reads_first_usable (o : os) (self : t)
    before proc after token_arg port_arg :
  ¬ still_running o self →
  process_iter o = (before ++ proc :: after)%list →
  Forall (fun q => ¬ usable q) before →
  name proc = client_name →
  first_with_prefix token_flag (cmdline proc) = Some token_arg →
  first_with_prefix port_flag (cmdline proc) = Some port_arg →
  find_league_client o self = (true, discovered proc token_arg port_arg self).
Proof.
  intros Hnot Heq Hnone Hname Htoken Hport. unfold find_league_client.
  destruct (connected self && _)%bool eqn:Hcut;
    [by apply short_cut_iff in Hcut|].
  by rewrite Heq, (scan_processes_first _ _ _ token_arg port_arg).
Qed.

Lemma half_client_not_usable : ¬ usable half_client.
Proof. by intros (_ & _ & [? ?]). Qed.

Lemma other_process_not_usable : ¬ usable other_process.
Proof. by intros (? & _). Qed.

(** Past another program and a client process without a port, the
    parameters are read off the third process: port 51234, not 1. *)
Lemma find_league_client_reads_first_usable_witness :
  find_league_client three_processes init =
    (true,
     {| auth_token := Some "s3cret"; port := Some "51234";
        process_ := Some full_client;
        headers := Some "riot:s3cret";
        base_url := Some "https://127.0.0.1:51234";
        connected := true; ws_connected := false |}).
Proof.
  apply (find_league_client_reads_first_usable three_processes init
           [other_process; half_client] full_client []
           "--remoting-auth-token=s3cret" "--app-port=51234").
  - by intros [? _].
  - reflexivity.
  - repeat constructor; [apply other_process_not_usable | apply half_client_not_usable].
  - reflexivity.
  - reflexivity.
  - reflexivity.
Defined.

Lemma no_equals_cons c s :
  no_equals (String c s) ↔ c ≠ "="%char ∧ no_equals s.
Proof. unfold no_equals. simpl. by rewrite Forall_cons. Qed.

Lemma until_equals_app value rest :
  no_equals value → until_equals (value +:+ "=" +:+ rest) = value.
Proof.
  induction value as [|c value IH]; [done|].
  intros [Hc Hvalue]%no_equals_cons.
  change (until_equals (String c (value +:+ "=" +:+ rest)) = String c value).
  cbn [until_equals]. apply Ascii.eqb_neq in Hc as ->. f_equal. by apply IH.
Qed.

Lemma until_equals_all value : no_equals value → until_equals value = value.
Proof.
  induction value as [|c value IH]; [done|].
  intros [Hc Hvalue]%no_equals_cons. cbn [until_equals].
  apply Ascii.eqb_neq in Hc as ->. f_equal. by apply IH.
Qed.

Lemma split_equals_1_app flag x :
  no_equals flag → split_equals_1 (flag +:+ "=" +:+ x) = until_equals x.
Proof.
  induction flag as [|c flag IH]; [done|].
  intros [Hc Hflag]%no_equals_cons.
  change (split_equals_1 (String c (flag +:+ "=" +:+ x)) = until_equals x).
  cbn [split_equals_1]. apply Ascii.eqb_neq in Hc as ->. by apply IH.
Qed.

(** X3. For an argument made of a flag without [=], then [=], then a
    value, [x.split('=')[1]] is the value if the value has no [=];
    if the value has one, only the text before it is kept, so a token
    or a port is cut at its first [=]. *)
Theorem split_equals_1_between flag value rest :
  no_equals flag → no_equals value →
  split_equals_1 (flag +:+ "=" +:+ value) = value ∧
  split_equals_1 (flag +:+ "=" +:+ value +:+ "=" +:+ rest) = value.
Proof.
  intros Hflag Hvalue. rewrite !split_equals_1_app by done.
  by rewrite until_equals_all, until_equals_app.
Qed.

Lemma split_equals_1_between_witness :
  split_equals_1 "--remoting-auth-token=s3cret" = "s3cret" ∧
  split_equals_1 "--remoting-auth-token=s3cret=padding" = "s3cret".
Proof.
  apply (split_equals_1_between "--remoting-auth-token" "s3cret" "padding").
  - unfold no_equals. simpl. by repeat constructor.
  - unfold no_equals. simpl. by repeat constructor.
Defined.

Lemma discovered_wired proc token_arg port_arg self :
  wired (discovered proc token_arg port_arg self).
Proof.
  intros _. exists (split_equals_1 token_arg), (split_equals_1 port_arg).
  by repeat split.
Qed.

Lemma find_league_client_wired o self :
  wired self → wired (find_league_client o self).2.
Proof.
  intros Hwired. unfold find_league_client.
  destruct (connected self && _)%bool; [done|].
  destruct (usable_cases_all (process_iter o)) as [Hsome|Hnone].
  - apply first_usable_split in Hsome
      as (before & proc & after & -> & (Hname & [t Ht] & [p Hp]) & Hnone).
    rewrite (scan_processes_first _ _ _ t p) by done. apply discovered_wired.
  - destruct (scan_processes_none _ (set_connected false self) Hnone)
      as (_ & Hconnected & _).
    intros Hyes. by rewrite Hconnected in Hyes.
Qed.

Section Request.
Context {Json Net : Type}.
Variable empty_dict : Json.
Variable requests_request : http_request Json → Net → http_outcome Json * Net.

Lemma ensure_connected_wired o self :
  wired self → wired (ensure_connected o self).2.
Proof.
  intros Hwired. unfold ensure_connected.
  destruct (connected self); [done | by apply find_league_client_wired].
Qed.

(** What [request] leaves of the connection: what
    [ensure_connected] left, or that with the flag cleared. *)
Lemma request_connection o self net method_ endpoint data :
  (request empty_dict requests_request o self net method_ endpoint data).1.2
    = (ensure_connected o self).2 ∨
  (request empty_dict requests_request o self net method_ endpoint data).1.2
    = set_connected false (ensure_connected o self).2.
Proof.
  unfold request. destruct (ensure_connected o self) as [ready self1].
  destruct ready; [|by left]. cbn [negb snd].
  destruct (requests_request _ net) as [[status_code text|] net1]; [|by right].
  destruct (status_code =? 404); [by left|].
  destruct (raises_for_status status_code); [by right|].
  destruct text; by (left + right).
Qed.

(** X4. A connection that is marked connected always holds a token
    and a port with the header and the base URL made of them, and a
    tracked process: this is so at the start and is kept by
    [find_league_client] and by [request]. So whenever [request] goes
    ahead, the URL it calls is [https://127.0.0.1:<port><endpoint>],
    never one made of a missing base. *)
Theorem connected_means_wired :
  wired init ∧
  ∀ (o : os) (self : t),
    wired self →
    wired (find_league_client o self).2 ∧
    (∀ net method_ endpoint data,
       wired (request empty_dict requests_request o self net method_ endpoint data).1.2) ∧
    (∀ endpoint,
       (ensure_connected o self).1 = true →
       ∃ token port_value,
         headers (ensure_connected o self).2 = Some ("riot:" +:+ token) ∧
         format_url (base_url (ensure_connected o self).2) endpoint
           = "https://127.0.0.1:" +:+ port_value +:+ endpoint).
Proof.
  split; [done|]. intros o self Hwired.
  split; [by apply find_league_client_wired|]. split.
  - intros net method_ endpoint data.
    destruct (request_connection o self net method_ endpoint data) as [->| ->].
    + by apply ensure_connected_wired.
    + done.
  - intros endpoint Hready.
    pose proof (ensure_connected_wired o self Hwired) as Hwired1.
    destruct (ensure_connected o self) as [ready self1] eqn:Hensure.
    cbn [fst snd] in *. subst ready.
    apply ConnectionFacts.ensure_connected_ready in Hensure.
    destruct (Hwired1 Hensure) as (token & port_value & _ & _ & Hheaders & Hbase & _).
    exists token, port_value. split; [done|]. unfold format_url.
    rewrite Hbase. apply PyStrFacts.append_assoc.
Qed.

(** X5. [request] returns a non-null value exactly when the call goes
    out and is answered with a status outside 400..599 whose body is
    empty, and then the value is the empty object, or decodes to a
    value other than [None], and then it is that value. A body that
    is the JSON text [null] gives [None], also with a good status,
    and keeps the connection. A non-null result leaves the connection
    as it was, marked connected. *)
Theorem request_success_iff (o : os) (self : t) (net : Net)
    (method_ endpoint : string) (data : option Json) (j : Json) :
  let '(ready, self1) := ensure_connected o self in
  let '(result, self2, net2) :=
    request empty_dict requests_request o self net method_ endpoint data in
  let '(answer, net1) :=
    requests_request
      {| method := method_;
         url := format_url (base_url self1) endpoint;
         req_headers := headers self1;
         json := data;
         verify := false |} net in
  (result = Some j ↔
   ready = true ∧
   ∃ status_code text,
     answer = Response status_code text ∧
     ¬ (400 ≤ status_code < 600) ∧
     ((text = EmptyText ∧ j = empty_dict) ∨ text = JsonText j)) ∧
  (ready = true →
   ∀ status_code,
     answer = Response status_code NullText →
     ¬ (400 ≤ status_code < 600) →
     result = None ∧ self2 = self1) ∧
  (is_Some result → self2 = self1 ∧ connected self2 = true).
Proof.
  unfold request.
  destruct (ensure_connected o self) as [ready self1] eqn:Hready.
  destruct ready; cbn [negb].
  - apply ConnectionFacts.ensure_connected_ready in Hready.
    destruct (requests_request _ net) as [[status_code text|] net1].
    + destruct (Z.eqb_spec status_code 404) as [->|Hnot404].
      { split; [|split; [|by intros [? ?]]].
        - split; [done|].
          intros (_ & ? & ? & [= <- _] & Hstatus & _). lia.
        - intros _ ? [= <-] Hstatus. lia. }
      unfold raises_for_status.
      destruct (Z.leb_spec 400 status_code), (Z.ltb_spec status_code 600);
        cbn [andb].
      { split; [|split; [|by intros [? ?]]].
        - split; [done|].
          intros (_ & ? & ? & [= <- _] & Hstatus & _). lia.
        - intros _ ? Hanswer Hstatus. injection Hanswer as <- _. lia. }
      all: destruct text as [|j'| |].
      all: split; [|split; [intros _ ? Hanswer _; by inversion Hanswer|]].
      all: try by intros [? ?].
      all: try by intros _.
      all: split.
      all: try done.
      all: try (intros (_ & ? & ? & [= _ <-] & _ & [[? _]|?]); done).
      all: try (intros [= <-]; split; [done|]; eexists _, _;
                split; [done|]; split; [lia|]; by (left + right)).
      all: intros (_ & ? & ? & [= _ <-] & _ & [[? ->]| ?]); congruence.
    + split; [|split; [by intros _ ? ? _ | by intros [? ?]]].
      split; [done|]. by intros (_ & ? & ? & ? & _).
  - destruct (requests_request _ net) as [answer net1].
    split; [|split; [done | by intros [? ?]]].
    split; [done | by intros [? _]].
Qed.
End Request.

End ConnectorProperties.

(** ** Further properties of the validation and of the resolver *)

Module ValidationProperties.
Import RuneManager Resolver ResolverFacts ValidationFacts Samples Setup.

(** Either nothing is stored, or a setup with nine perks is stored
    for the champion. *)
Lemma load_cases self file champion_name :
  load_rune_data_from_file self file champion_name = (false, self) ∨
  ∃ rune_setup_,
    load_rune_data_from_file self file champion_name
      = (true, with_setup self champion_name rune_setup_) ∧
    length (selected_perks rune_setup_) = 9%nat.
Proof.
  unfold load_rune_data_from_file. destruct file as [| |d]; [by left..|].
  repeat case_match; try by left.
  right. eexists. split; [reflexivity|]. cbn [selected_perks].
  match goal with
  | Hnine : negb (length _ =? 9)%nat = false |- _ =>
      by apply negb_false_iff, Nat.eqb_eq in Hnine
  end.
Qed.

(** X6. [load_rune_data_from_file] touches nothing but the entry of
    the requested champion: the page id, the two tables and the
    entries of every other champion stay as they were; on a failure
    the whole manager is unchanged; on a success the entry of the
    champion holds exactly nine perk ids. *)
Theorem load_changes_only_the_champion (self : t) (file : rune_file)
    (champion_name : string) :
  let '(ok, self') := load_rune_data_from_file self file champion_name in
  current_page_id self' = current_page_id self ∧
  path_id_map self' = path_id_map self ∧
  rune_id_map self' = rune_id_map self ∧
  (∀ other, other ≠ champion_name →
            rune_data self' !! other = rune_data self !! other) ∧
  (ok = false → self' = self) ∧
  (ok = true →
   ∃ rune_setup_,
     rune_data self' !! champion_name = Some rune_setup_ ∧
     length (selected_perks rune_setup_) = 9%nat).
Proof.
  destruct (load_cases self file champion_name) as [->|(rune_setup_ & -> & Hnine)].
  - by repeat split.
  - cbn [with_setup current_page_id path_id_map rune_id_map rune_data].
    repeat split; [|done|].
    + intros other Hother. by rewrite lookup_insert_ne.
    + intros _. exists rune_setup_. by rewrite lookup_insert_eq.
Qed.

Lemma resolve_all_length self names :
  (length (resolve_all self names) ≤ length names)%nat.
Proof.
  induction names as [|rune_name names IH]; simpl; [done|].
  destruct (find_rune_id self rune_name) as [id|]; [|lia].
  destruct (id =? 0); simpl; lia.
Qed.

(** X7. A record is accepted only if its three lists hold at least
    eight names between them: names are only ever dropped, never
    added, and the keystone gives one id of the nine. *)
Theorem load_needs_eight_names (self : t) (d : scraped_data)
    (champion_name : string) (self' : t) :
  load_rune_data_from_file self (Scraped d) champion_name = (true, self') →
  (8 ≤ length (listed_names d))%nat.
Proof.
  unfold load_rune_data_from_file, listed_names.
  repeat case_match; try done. intros _.
  match goal with
  | Hnine : negb (length ?ids =? 9)%nat = false |- _ =>
      apply negb_false_iff, Nat.eqb_eq in Hnine; revert Hnine
  end.
  rewrite !length_app. cbn [length].
  pose proof (resolve_all_length self (default [] (primary_runes d))).
  pose proof (resolve_all_length self (default [] (secondary_runes d))).
  pose proof (resolve_all_length self (default [] (stat_shards d))).
  lia.
Qed.

Lemma scenario_loads :
  load_rune_data_from_file init (Scraped scenario) "X" = (true, holding "X").
Proof. reflexivity. Qed.

Lemma load_needs_eight_names_witness : (8 ≤ length (listed_names scenario))%nat.
Proof.
  exact (load_needs_eight_names init scenario "X" _ scenario_loads).
Defined.

Lemma get_NoDup {V : Type} (d : list (string * V)) key v :
  NoDup d.*1 → (key, v) ∈ d → PyDict.get d key = Some v.
Proof.
  induction d as [|[k v'] d IH]; [by intros _ ?%elem_of_nil|].
  cbn [fmap list_fmap fst PyDict.get]. rewrite NoDup_cons, elem_of_cons.
  intros [Hfresh Hnodup] [[= -> ->]|Hin].
  - by rewrite String.eqb_refl.
  - destruct (String.eqb_spec k key) as [->|_]; [|by apply IH].
    exfalso. apply Hfresh. apply list_elem_of_fmap. by exists (key, v).
Qed.

(** X8. When no name stands twice in the catalogue, as in the
    catalogue of [__init__], every name of the catalogue resolves to
    its own id, whatever entries before it contain it or are
    contained in it. *)
Theorem catalogue_name_resolves_to_its_id (self : t) (known_name : string)
    (known_id : Z) :
  NoDup (rune_id_map self).*1 →
  (known_name, known_id) ∈ rune_id_map self →
  find_rune_id self known_name = Some known_id.
Proof.
  intros Hnodup Hin. unfold find_rune_id. by rewrite (get_NoDup _ _ known_id).
Qed.

Lemma init_names_distinct : NoDup (rune_id_map init).*1.
Proof. apply (bool_decide_unpack _). by vm_compute. Qed.

Lemma catalogue_name_resolves_to_its_id_witness :
  find_rune_id init "Health Scaling" = Some 5001.
Proof.
  apply (catalogue_name_resolves_to_its_id init "Health Scaling" 5001
           init_names_distinct).
  apply list_elem_of_In, (bool_decide_unpack _). by vm_compute.
Defined.

Lemma str_in_empty hay : PyStr.str_in "" hay = true.
Proof. by destruct hay. Qed.

(** X9. The empty name is not dropped: unless it is itself a key, it
    matches the first entry of a non-empty catalogue, so in a list of
    rune names it counts as that entry's id (in the catalogue of
    [__init__]: 8005) towards the nine. *)
Theorem empty_name_resolves_to_first_entry (self : t) (first_name : string)
    (first_id : Z) (rest : list (string * Z)) (names : list string) :
  rune_id_map self = (first_name, first_id) :: rest →
  "" ∉ (rune_id_map self).*1 →
  find_rune_id self "" = Some first_id ∧
  (first_id ≠ 0 →
   resolve_all self ("" :: names) = first_id :: resolve_all self names).
Proof.
  intros Hmap Hnokey.
  assert (Hfind : find_rune_id self "" = Some first_id).
  { unfold find_rune_id. apply PyDictFacts.get_None_keys in Hnokey as ->.
    rewrite Hmap. cbn [fuzzy_scan]. unfold fuzzy_match. cbn [PyStr.lower].
    by rewrite str_in_empty, orb_true_r. }
  split; [done|]. intros Hnonzero. cbn [resolve_all]. rewrite Hfind.
  by destruct (Z.eqb_spec first_id 0).
Qed.

Lemma empty_name_resolves_to_first_entry_witness :
  find_rune_id init "" = Some 8005 ∧
  resolve_all init [""; "Triumph"] = 8005 :: resolve_all init ["Triumph"].
Proof.
  destruct (empty_name_resolves_to_first_entry init "Press the Attack" 8005
              (tail (rune_id_map init)) ["Triumph"] eq_refl) as [Hfind Hall].
  - apply (bool_decide_unpack _). by vm_compute.
  - split; [done | by apply Hall].
Defined.

End ValidationProperties.

(** ** Further properties of the fetch and of the apply *)

Module ApplyProperties.
Import RuneManager Resolver ResolverFacts ValidationFacts ValidationProperties
  ApplyFacts Samples Setup.

Lemma style_of_table (path_name : string) (fallback : Z) :
  fallback ∈ style_ids →
  PyDict.get_default (path_id_map init) path_name fallback ∈ style_ids.
Proof.
  intros Hfallback. unfold PyDict.get_default.
  destruct (PyDict.get (path_id_map init) path_name) as [id|] eqn:Hget; [|done].
  apply PyDictFacts.get_Some_In in Hget. apply list_elem_of_In. simpl in *.
  intuition congruence.
Qed.

Lemma style_ids_nonzero (id : Z) : id ∈ style_ids → id ≠ 0.
Proof. intros Hin%list_elem_of_In ->. simpl in Hin. intuition congruence. Qed.

Lemma valid_setup_checks rune_setup_ :
  valid_setup rune_setup_ ↔
  ((primary_style rune_setup_ =? 0) || (sub_style rune_setup_ =? 0))%bool = false ∧
  negb (length (selected_perks rune_setup_) =? 9)%nat = false.
Proof.
  unfold valid_setup.
  rewrite orb_false_iff, negb_false_iff, Nat.eqb_eq, !Z.eqb_neq. tauto.
Qed.

Section WithOutside.
Context {World : Type} `{Outside World}.

(** With a setup in the manager's data the first part of the apply
    calls nothing. *)
Lemma prepare_cached self champion_name rune_setup_ (w : World) :
  rune_data self !! champion_name = Some rune_setup_ →
  (valid_setup rune_setup_ →
   prepare self champion_name w = (Ready rune_setup_, self, w)) ∧
  (¬ valid_setup rune_setup_ →
   prepare self champion_name w = (Refused, self, w)).
Proof.
  intros Hcached. unfold prepare. rewrite Hcached. rewrite Hcached.
  rewrite valid_setup_checks.
  destruct ((primary_style rune_setup_ =? 0) || (sub_style rune_setup_ =? 0))%bool;
    [split; [by intros [? _] | done]|].
  destruct (negb (length (selected_perks rune_setup_) =? 9)%nat);
    split; try done; [by intros [_ ?] | by intros []].
Qed.

Lemma prepare_Ready_valid self champion_name (w : World) rune_setup_ self1 w1 :
  prepare self champion_name w = (Ready rune_setup_, self1, w1) →
  valid_setup rune_setup_ ∧ rune_data self1 !! champion_name = Some rune_setup_.
Proof.
  unfold prepare.
  destruct (match rune_data self !! champion_name with
            | Some _ => (Return true, self, w)
            | None => fetch_runes_for_champion self champion_name w
            end) as [[fetched self0] w0].
  destruct fetched as [[|]|]; try done.
  destruct (rune_data self0 !! champion_name) as [found|] eqn:Hfound; [|done].
  destruct ((primary_style found =? 0) || (sub_style found =? 0))%bool eqn:Hstyles;
    [done|].
  destruct (negb (length (selected_perks found) =? 9)%nat) eqn:Hnine; [done|].
  intros [= <- <- <-]. split; [by apply valid_setup_checks | done].
Qed.

End WithOutside.

(** What an accepted record is stored as. *)
Lemma loaded_setup_is_ready_stored page data file champion_name self' :
  load_rune_data_from_file (manager_with page data) file champion_name
    = (true, self') →
  ∃ rune_setup_,
    self' = with_setup (manager_with page data) champion_name rune_setup_ ∧
    valid_setup rune_setup_.
Proof.
  unfold load_rune_data_from_file.
  repeat case_match; try done. intros [= <-]. eexists. split; [reflexivity|].
  split; [|split].
  - apply style_ids_nonzero. cbn [primary_style]. apply style_of_table. set_solver.
  - apply style_ids_nonzero. cbn [sub_style]. apply style_of_table. set_solver.
  - cbn [selected_perks].
    match goal with
    | Hnine : negb (length _ =? 9)%nat = false |- _ =>
        by apply negb_false_iff, Nat.eqb_eq in Hnine
    end.
Qed.

Section WithOutside2.
Context {World : Type} `{Outside World}.

(** X10. A record that [load_rune_data_from_file] accepts, with the
    tables of [__init__], is stored with two style ids among the five
    of the table, whatever the path names were, and with nine perks:
    it always passes the checks that [apply_runes_for_champion] makes
    again, and the apply then goes to the client without calling the
    scraper. *)
Theorem loaded_setup_is_ready page data file champion_name self' :
  load_rune_data_from_file (manager_with page data) file champion_name
    = (true, self') →
  ∃ rune_setup_,
    rune_data self' !! champion_name = Some rune_setup_ ∧
    primary_style rune_setup_ ∈ style_ids ∧
    sub_style rune_setup_ ∈ style_ids ∧
    valid_setup rune_setup_ ∧
    ∀ w : World,
      prepare self' champion_name w = (Ready rune_setup_, self', w).
Proof.
  intros Hload.
  assert (Hstyles : ∃ rune_setup_,
    self' = with_setup (manager_with page data) champion_name rune_setup_ ∧
    primary_style rune_setup_ ∈ style_ids ∧
    sub_style rune_setup_ ∈ style_ids).
  { revert Hload. unfold load_rune_data_from_file.
    repeat case_match; try done. intros [= <-]. eexists. split; [reflexivity|].
    cbn [primary_style sub_style manager_with path_id_map].
    split; apply style_of_table; set_solver. }
  destruct Hstyles as (rune_setup_ & -> & Hprimary & Hsub).
  destruct (loaded_setup_is_ready_stored _ _ _ _ _ Hload)
    as (stored & Heq & Hvalid).
  assert (stored = rune_setup_) as ->.
  { apply (f_equal (fun rm => rune_data rm !! champion_name)) in Heq.
    cbn [with_setup rune_data] in Heq. rewrite !lookup_insert_eq in Heq.
    congruence. }
  assert (Hcached : rune_data (with_setup (manager_with page data) champion_name
                                 rune_setup_) !! champion_name = Some rune_setup_).
  { cbn [with_setup rune_data]. apply lookup_insert_eq. }
  exists rune_setup_. repeat (split; [done|]).
  intros w. by apply prepare_cached.
Qed.

(** X11. [fetch_runes_for_champion] returns true only when a scraper
    ran to its end and the file it left was accepted: the manager then
    holds nine perks for the champion. In every other case the manager
    is unchanged. Either way the world is what the one run of the
    scraper left. *)
Theorem fetch_true_means_loaded (self : t) (champion_name : string) (w : World) :
  let '(result, self', w') := fetch_runes_for_champion self champion_name w in
  w' = (run_scraper (PyStr.lower champion_name) w).2 ∧
  (result = Return true →
   ∃ file rune_setup_,
     (run_scraper (PyStr.lower champion_name) w).1 = Ran file ∧
     load_rune_data_from_file self file champion_name = (true, self') ∧
     rune_data self' !! champion_name = Some rune_setup_ ∧
     length (selected_perks rune_setup_) = 9%nat) ∧
  (result ≠ Return true → self' = self).
Proof.
  unfold fetch_runes_for_champion.
  destruct (run_scraper (PyStr.lower champion_name) w) as [[file| |] w'];
    cbn [fst snd]; [|by repeat split..].
  destruct (load_cases self file champion_name)
    as [Hload|(rune_setup_ & Hload & Hnine)]; rewrite Hload.
  - by repeat split.
  - cbv beta iota zeta. split; [done|]. split; [|by intros []].
    intros _. exists file, rune_setup_.
    split; [done|]. split; [done|]. split; [|done].
    cbn [with_setup rune_data]. apply lookup_insert_eq.
Qed.

(** X12. [apply_runes_for_champion] uses what it holds and fails
    closed. With a valid setup for the champion in its data it goes
    straight to the pages, without the scraper. With a setup that is
    not valid it returns false and calls nothing. Without a setup,
    when the fetch does not return true, it returns false (or lets
    the exception of the scraper pass) after the one run of the
    scraper, without a call to the client, and keeps its data. *)
Theorem apply_uses_cache_and_fails_closed (self : t) (champion_name : string)
    (w : World) :
  (∀ rune_setup_,
     rune_data self !! champion_name = Some rune_setup_ →
     (valid_setup rune_setup_ →
      apply_runes_for_champion self champion_name w =
        let '(ok, self2, w2) := write_page self champion_name rune_setup_ w in
        (Return ok, self2, w2)) ∧
     (¬ valid_setup rune_setup_ →
      apply_runes_for_champion self champion_name w = (Return false, self, w))) ∧
  (rune_data self !! champion_name = None →
   (fetch_runes_for_champion self champion_name w).1.1 ≠ Return true →
   apply_runes_for_champion self champion_name w =
     (match (run_scraper (PyStr.lower champion_name) w).1 with
      | Crashed => Raise
      | _ => Return false
      end,
      self, (run_scraper (PyStr.lower champion_name) w).2)).
Proof.
  split.
  - intros rune_setup_ Hcached.
    destruct (prepare_cached self champion_name rune_setup_ w Hcached)
      as [Hvalid Hinvalid].
    split.
    + intros Hok. by rewrite (apply_Ready _ _ _ _ _ _ (Hvalid Hok)).
    + intros Hbad. unfold apply_runes_for_champion. by rewrite (Hinvalid Hbad).
  - intros Hnone. unfold apply_runes_for_champion, prepare. rewrite Hnone.
    unfold fetch_runes_for_champion.
    destruct (run_scraper (PyStr.lower champion_name) w) as [[file| |] w'];
      cbn [fst snd]; [|done..].
    destruct (load_cases self file champion_name)
      as [->|(rune_setup_ & -> & Hnine)]; [done|].
    by intros [].
Qed.
End WithOutside2.

Lemma loaded_setup_is_ready_witness :
  ∃ rune_setup_,
    rune_data (Samples.holding "X") !! "X" = Some rune_setup_ ∧
    primary_style rune_setup_ ∈ style_ids ∧
    sub_style rune_setup_ ∈ style_ids ∧
    valid_setup rune_setup_ ∧
    ∀ w : Scripted.world,
      prepare (H := Samples.quiet) (Samples.holding "X") "X" w
        = (Ready rune_setup_, Samples.holding "X", w).
Proof.
  assert (Hload : load_rune_data_from_file (manager_with None ∅)
                    (Scraped Samples.scenario) "X" = (true, Samples.holding "X"))
    by reflexivity.
  exact (loaded_setup_is_ready (H := Samples.quiet) None ∅
           (Scraped Samples.scenario) "X" (Samples.holding "X") Hload).
Defined.

End ApplyProperties.

(** ** Invariants of the manager and of the monitor *)

Module InvariantFacts.
Import RuneManager Resolver ResolverFacts ValidationFacts ValidationProperties
  ApplyFacts ApplyProperties ChampionSelectMonitor Session Setup Invariants
  MonitorFacts.

Lemma resolve_all_catalogue self names :
  Forall (fun id => id ∈ (rune_id_map self).*2) (resolve_all self names).
Proof.
  induction names as [|rune_name names IH]; simpl; [done|].
  destruct (find_rune_id self rune_name) as [id|] eqn:Hfind; [|done].
  destruct (id =? 0); [done|].
  constructor; [by apply find_rune_id_in_catalogue in Hfind | done].
Qed.

Lemma catalogued_valid rune_setup_ : catalogued rune_setup_ → valid_setup rune_setup_.
Proof.
  intros (Hprimary & Hsub & Hnine & _).
  split; [|split]; [by apply style_ids_nonzero..|done].
Qed.

(** What an accepted record is stored as. *)
Lemma load_stores_catalogued page data file champion_name :
  load_rune_data_from_file (manager_with page data) file champion_name
    = (false, manager_with page data) ∨
  ∃ rune_setup_,
    load_rune_data_from_file (manager_with page data) file champion_name
      = (true, with_setup (manager_with page data) champion_name rune_setup_) ∧
    catalogued rune_setup_.
Proof.
  unfold load_rune_data_from_file. destruct file as [| |d]; [by left..|].
  repeat case_match; try by left.
  right. eexists. split; [reflexivity|].
  split; [|split; [|split]].
  - cbn [primary_style]. apply style_of_table. set_solver.
  - cbn [sub_style]. apply style_of_table. set_solver.
  - cbn [selected_perks].
    match goal with
    | Hnine : negb (length _ =? 9)%nat = false |- _ =>
        by apply negb_false_iff, Nat.eqb_eq in Hnine
    end.
  - cbn [selected_perks]. apply Forall_app. split.
    + constructor; [|done].
      match goal with
      | Hkeystone : find_rune_id _ _ = Some _ |- _ =>
          by apply find_rune_id_in_catalogue in Hkeystone
      end.
    + repeat (apply Forall_app; split);
        apply (resolve_all_catalogue (manager_with page data)).
Qed.

Lemma sound_manager_with self :
  path_id_map self = path_id_map RuneManager.init →
  rune_id_map self = rune_id_map RuneManager.init →
  self = manager_with (current_page_id self) (rune_data self).
Proof. destruct self. cbn. by intros -> ->. Qed.

Lemma sound_init : sound RuneManager.init.
Proof. split; [done|]. split; [done|]. apply map_Forall_empty. Qed.

Lemma load_sound self file champion_name :
  sound self → sound (load_rune_data_from_file self file champion_name).2.
Proof.
  intros (Hpaths & Hrunes & Hdata).
  rewrite (sound_manager_with self Hpaths Hrunes).
  destruct (load_stores_catalogued (current_page_id self) (rune_data self)
              file champion_name) as [->|(rune_setup_ & -> & Hvalid)].
  - by split; [|split].
  - split; [done|]. split; [done|].
    cbn [snd with_setup rune_data manager_with]. by apply map_Forall_insert_2.
Qed.

Section WithOutside.
Context {World : Type} `{Outside World}.

Lemma fetch_sound self champion_name (w : World) :
  sound self → sound (fetch_runes_for_champion self champion_name w).1.2.
Proof.
  intros Hsound. unfold fetch_runes_for_champion.
  destruct (run_scraper _ w) as [[file| |] w']; [|done..].
  pose proof (load_sound self file champion_name Hsound) as Hload.
  by destruct (load_rune_data_from_file self file champion_name).
Qed.

Lemma write_page_data self champion_name rune_setup_ (w : World) :
  rune_data (write_page self champion_name rune_setup_ w).1.2 = rune_data self ∧
  path_id_map (write_page self champion_name rune_setup_ w).1.2 = path_id_map self ∧
  rune_id_map (write_page self champion_name rune_setup_ w).1.2 = rune_id_map self.
Proof.
  unfold write_page. destruct (get_pages w) as [answer after_get].
  destruct (default [] answer) as [|first_page rest].
  - destruct (post_page _ after_get) as [[reply|] after_post]; [|done].
    by destruct (Lcu.reply_truthy reply), (Lcu.reply_id reply).
  - cbv zeta. by destruct (put_page _ _ after_get) as [[reply|] after_put].
Qed.

Lemma prepare_sound self champion_name (w : World) :
  sound self → sound (prepare self champion_name w).1.2.
Proof.
  intros Hsound. unfold prepare.
  assert (Hfetched : sound
    (match rune_data self !! champion_name with
     | Some _ => (Return true, self, w)
     | None => fetch_runes_for_champion self champion_name w
     end).1.2).
  { destruct (rune_data self !! champion_name); [done | by apply fetch_sound]. }
  destruct (match rune_data self !! champion_name with
            | Some _ => (Return true, self, w)
            | None => fetch_runes_for_champion self champion_name w
            end) as [[fetched self0] w0].
  cbn [fst snd] in Hfetched. destruct fetched as [[|]|]; [|done..].
  destruct (rune_data self0 !! champion_name) as [found|]; [|done].
  destruct ((primary_style found =? 0) || (sub_style found =? 0))%bool; [done|].
  by destruct (negb (length (selected_perks found) =? 9)%nat).
Qed.

Lemma apply_sound self champion_name (w : World) :
  sound self → sound (apply_runes_for_champion self champion_name w).1.2.
Proof.
  intros Hsound%(prepare_sound _ champion_name w). unfold apply_runes_for_champion.
  destruct (prepare self champion_name w) as [[[| |rune_setup_] self1] w1];
    [done..|].
  pose proof (write_page_data self1 champion_name rune_setup_ w1) as Hdata.
  destruct (write_page self1 champion_name rune_setup_ w1) as [[ok self2] w2].
  cbn [fst snd] in *. destruct Hdata as (Hdata & Hpaths & Hrunes).
  destruct Hsound as (? & ? & ?).
  split; [congruence|]. split; [congruence|]. by rewrite Hdata.
Qed.

Lemma apply_with_retry_sound self champion_name (w : World) :
  sound self → sound (apply_with_retry self champion_name w).1.
Proof.
  intros Hsound. unfold apply_with_retry.
  pose proof (apply_sound self champion_name w Hsound) as Hfirst.
  destruct (apply_runes_for_champion self champion_name w) as [[[[|]|] rm1] w1];
    cbn [fst snd] in *; [done| |done].
  pose proof (fetch_sound rm1 champion_name w1 Hfirst) as Hfetch.
  destruct (fetch_runes_for_champion rm1 champion_name w1) as [[[[|]|] rm2] w2];
    cbn [fst snd] in *; [|done..].
  pose proof (apply_sound rm2 champion_name w2 Hfetch) as Hsecond.
  by destruct (apply_runes_for_champion rm2 champion_name w2) as [[? ?] ?].
Qed.

(** The handlers, for a property of the manager and the client that
    the calls keep. *)
Section Handled.
Variable P : RuneManager.t → World → Prop.
Hypothesis apply_keeps :
  ∀ rm champion_name (w : World),
    P rm w →
    P (apply_with_retry rm champion_name w).1 (apply_with_retry rm champion_name w).2.
Hypothesis champion_keeps :
  ∀ rm summoner champion_id (w : World),
    P rm w → P rm (get_champion summoner champion_id w).2.
Hypothesis summoner_keeps :
  ∀ rm (w : World), P rm w → P rm (get_current_summoner w).2.

Lemma handled_refl (s : system World) : handled P s [] s.
Proof. split; [done|]. split; [set_solver|done]. Qed.

Lemma handled_trans (s s1 s2 : system World) log1 log2 :
  handled P s log1 s1 → handled P s1 log2 s2 → handled P s (log1 ++ log2) s2.
Proof.
  intros (Hphase1 & Hids1 & HP1) (Hphase2 & Hids2 & HP2).
  split; [congruence|]. split; [|auto].
  unfold ids_of in *. rewrite fmap_app, list_to_set_app_L. set_solver.
Qed.

Lemma handled_cleared (s s' : system World) :
  current_phase (monitor s') = current_phase (monitor s) →
  processed_action_ids (monitor s') = ∅ ∨
  processed_action_ids (monitor s') = processed_action_ids (monitor s) →
  (P (manager s) (world s) → P (manager s') (world s')) →
  handled P s [] s'.
Proof.
  intros Hphase Hids HP. split; [done|]. split; [|done].
  destruct Hids as [->| ->]; set_solver.
Qed.

Lemma on_champion_locked_handled (s : system World) champion_name id :
  handled P s (on_champion_locked s champion_name id).2
    (on_champion_locked s champion_name id).1.
Proof.
  unfold on_champion_locked. case_bool_decide; [by apply handled_refl|].
  pose proof (apply_keeps (manager s) champion_name (world s)) as Hkeeps.
  destruct (apply_with_retry (manager s) champion_name (world s)) as [rm w].
  cbn [fst snd] in *. split; [done|]. split; [|done].
  unfold ids_of. cbn. set_solver.
Qed.

Lemma visit_action_handled pid cell action (s : system World) :
  handled P s (visit_action pid cell action s).2 (visit_action pid cell action s).1.
Proof.
  unfold visit_action.
  case_bool_decide; [|by apply handled_refl].
  destruct (Lcu.championId action) as [champion_id|]; [|by apply handled_refl].
  destruct (champion_id =? 0); [by apply handled_refl|].
  pose proof (champion_keeps (manager s) pid champion_id (world s)) as Hkeeps.
  destruct (get_champion pid champion_id (world s)) as [answer w].
  cbn [snd] in Hkeeps.
  destruct answer as [cd|]; [|by apply handled_cleared; [|right|]].
  destruct (Lcu.champion_name cd) as [[|c rest]|];
    [by apply handled_cleared; [|right|]| |by apply handled_cleared; [|right|]].
  cbv zeta. cbn [monitor manager world].
  set (self := if bool_decide _ then _ else _).
  set (s1 := {| monitor := self; manager := manager s; world := w |}).
  assert (Hfirst : handled P s [] s1).
  { apply handled_cleared; [by subst s1 self; case_bool_decide| |done].
    subst s1 self. case_bool_decide; [by right | by left]. }
  destruct (_ && _)%bool.
  - apply (handled_trans s s1 _ [] _ Hfirst), on_champion_locked_handled.
  - done.
Qed.

Lemma visit_group_handled pid cell action_group (s : system World) :
  handled P s (visit_group pid cell action_group s).2
    (visit_group pid cell action_group s).1.
Proof.
  revert s. induction action_group as [|action rest IH]; intros s.
  - by apply handled_refl.
  - rewrite visit_group_cons. cbn [fst snd].
    eapply handled_trans; [apply visit_action_handled | apply IH].
Qed.

Lemma visit_groups_handled pid cell groups (s : system World) :
  handled P s (visit_groups pid cell groups s).2 (visit_groups pid cell groups s).1.
Proof.
  revert s. induction groups as [|action_group rest IH]; intros s.
  - by apply handled_refl.
  - rewrite visit_groups_cons. cbn [fst snd].
    eapply handled_trans; [apply visit_group_handled | apply IH].
Qed.

Lemma handle_session_handled data (s : system World) :
  handled P s (handle_session data s).2 (handle_session data s).1.
Proof.
  unfold handle_session.
  pose proof (summoner_keeps (manager s) (world s)) as Hkeeps.
  destruct (get_current_summoner (world s)) as [local_player w].
  cbn [snd] in Hkeeps.
  set (s1 := {| monitor := monitor s; manager := manager s; world := w |}).
  assert (Hfirst : handled P s [] s1) by (by apply handled_cleared; [|right|]).
  destruct local_player as [local_player|]; [|done].
  destruct (find_local_cell _ _) as [local_cell|]; [|done].
  apply (handled_trans s s1 _ [] _ Hfirst), visit_groups_handled.
Qed.

Lemma session_tail_handled (data : option Lcu.session) (s : system World) :
  let tail :=
    match data, PyStr.truthy_str (current_phase (monitor s)) with
    | Some data, true => handle_session data s
    | _, _ => (s, [])
    end in
  handled P s tail.2 tail.1.
Proof.
  destruct data as [data|]; [|by apply handled_refl].
  destruct (PyStr.truthy_str (current_phase (monitor s)));
    [apply handle_session_handled | by apply handled_refl].
Qed.

(** One event: the phase is the one it announces, if it announces
    one. *)
Lemma handle_ws_message_handled (s : system World) message :
  current_phase (monitor (handle_ws_message s message).1)
    = last_phase (current_phase (monitor s)) [message] ∧
  processed_action_ids (monitor (handle_ws_message s message).1) ⊆
    processed_action_ids (monitor s)
      ∪ list_to_set (ids_of (handle_ws_message s message).2) ∧
  (P (manager s) (world s) →
   P (manager (handle_ws_message s message).1)
     (world (handle_ws_message s message).1)).
Proof.
  unfold last_phase, announced, handle_ws_message. cbn [foldl].
  destruct message as [|uri data]; [split; [done|split; [set_solver|done]]|].
  case_bool_decide as Huri; cbn [negb andb];
    [|split; [done|split; [set_solver|done]]].
  set (phase := data ≫= Lcu.timer_phase).
  assert (Hannounced :
    match (if PyStr.truthy_str phase then phase else None) with
    | Some p => Some p
    | None => current_phase (monitor s)
    end = if PyStr.truthy_str phase then phase else current_phase (monitor s)).
  { destruct (PyStr.truthy_str phase) eqn:Htruthy; [|done].
    by destruct (truthy_str_inv _ Htruthy) as (p & -> & _). }
  rewrite Hannounced. clear Hannounced.
  destruct (PyStr.truthy_str phase) eqn:Htruthy; cbn [andb].
  - case_bool_decide as Hsame; cbn [negb andb].
    + destruct (session_tail_handled data
                  {| monitor := monitor s; manager := manager s; world := world s |})
        as (Hkept & Hids & HP).
      cbv zeta in Hkept, Hids, HP. cbn [monitor manager world] in Hkept, Hids, HP |- *.
      split; [by rewrite Hkept|]. by split.
    + case_bool_decide as Hnone.
      * split; [done|]. split; [set_solver|done].
      * destruct (session_tail_handled data
                    {| monitor := set_phase phase (monitor s);
                       manager := manager s; world := world s |})
          as (Hkept & Hids & HP).
      cbv zeta in Hkept, Hids, HP. cbn [monitor manager world] in Hkept, Hids, HP |- *.
        split; [by rewrite Hkept|]. by split.
  - destruct (session_tail_handled data
                {| monitor := monitor s; manager := manager s; world := world s |})
      as (Hkept & Hids & HP).
      cbv zeta in Hkept, Hids, HP. cbn [monitor manager world] in Hkept, Hids, HP |- *.
    split; [by rewrite Hkept|]. by split.
Qed.

Lemma last_phase_cons phase message rest :
  last_phase phase (message :: rest)
    = last_phase (last_phase phase [message]) rest.
Proof. done. Qed.

Lemma handle_all_handled (s : system World) messages :
  current_phase (monitor (handle_all s messages).1)
    = last_phase (current_phase (monitor s)) messages ∧
  processed_action_ids (monitor (handle_all s messages).1) ⊆
    processed_action_ids (monitor s)
      ∪ list_to_set (ids_of (handle_all s messages).2) ∧
  (P (manager s) (world s) →
   P (manager (handle_all s messages).1) (world (handle_all s messages).1)).
Proof.
  revert s. induction messages as [|message rest IH]; intros s.
  - split; [done|]. split; [set_solver|done].
  - rewrite handle_all_cons, last_phase_cons. cbn [fst snd].
    destruct (handle_ws_message_handled s message) as (Hphase1 & Hids1 & HP1).
    destruct (IH (handle_ws_message s message).1) as (Hphase2 & Hids2 & HP2).
    split; [by rewrite Hphase2, Hphase1|]. split; [|auto].
    unfold ids_of in *. rewrite fmap_app, list_to_set_app_L. set_solver.
Qed.
End Handled.
End WithOutside.

End InvariantFacts.

(** ** The calls that the program makes to a scripted client *)

Module CallFacts.
Import RuneManager Resolver ResolverFacts ValidationFacts ValidationProperties
  ApplyFacts ApplyProperties ChampionSelectMonitor Session Setup Invariants
  MonitorFacts InvariantFacts.

Lemma count_app f (l1 l2 : list Scripted.call) :
  count f (l1 ++ l2) = (count f l1 + count f l2)%nat.
Proof. unfold count. by rewrite List.filter_app, length_app. Qed.

Lemma catalogued_body champion_name rune_setup_ :
  catalogued rune_setup_ → good_body (body_of champion_name rune_setup_).
Proof. intros (? & ? & ? & ?). by repeat split. Qed.

Section Scripted.
Variables (who : option Lcu.summoner) (champions : Z → option Lcu.champion_data).
Local Notation "'client'" := (Scripted.client who champions).

Lemma fetch_calls self champion_name w :
  Scripted.calls (fetch_runes_for_champion (H := client) self champion_name w).2
    = (Scripted.calls w ++ [Scripted.RunScraper (PyStr.lower champion_name)])%list.
Proof.
  unfold fetch_runes_for_champion.
  cbn [run_scraper Scripted.client Scripted.next_scrape].
  destruct (default Failed (head (Scripted.scraper_script w))) as [file| |]; [|done..].
  by destruct (load_rune_data_from_file self file champion_name).
Qed.

Lemma prepare_calls self champion_name w :
  Scripted.calls (prepare (H := client) self champion_name w).2
    = (Scripted.calls w ++ cascade_calls self champion_name)%list.
Proof.
  unfold prepare, cascade_calls.
  pose proof (fetch_calls self champion_name w) as Hfetch.
  destruct (rune_data self !! champion_name) as [held|] eqn:Hheld.
  - rewrite Hheld, app_nil_r. by repeat case_match.
  - destruct (fetch_runes_for_champion self champion_name w)
      as [[fetched self0] w0].
    cbn [snd] in Hfetch. rewrite <- Hfetch. by repeat case_match.
Qed.

Lemma write_page_calls self champion_name rune_setup_ w :
  ∃ c,
    (c = Scripted.PostPage (body_of champion_name rune_setup_) ∨
     ∃ id, c = Scripted.PutPage id (body_of champion_name rune_setup_)) ∧
    Scripted.calls (write_page (H := client) self champion_name rune_setup_ w).2
      = (Scripted.calls w ++ [Scripted.GetPages; c])%list.
Proof.
  unfold write_page.
  cbn [get_pages put_page post_page Scripted.client Scripted.next_pages
       Scripted.next_put Scripted.next_post].
  destruct (default [] (mjoin (head (Scripted.pages_script w))))
    as [|first_page rest].
  - eexists. split; [by left|]. cbn.
    destruct (mjoin (head (Scripted.post_script w))) as [reply|]; [|cbn].
    + destruct (Lcu.reply_truthy reply), (Lcu.reply_id reply); cbn;
        by rewrite <- app_assoc.
    + by rewrite <- app_assoc.
  - eexists. split; [right; by eexists|]. cbv zeta. cbn.
    destruct (mjoin (head (Scripted.put_script w))); cbn; by rewrite <- app_assoc.
Qed.

(** The calls of one apply. *)
Lemma apply_calls self champion_name w :
  ∃ write,
    Scripted.calls (apply_runes_for_champion (H := client) self champion_name w).2
      = (Scripted.calls w ++ cascade_calls self champion_name ++ write)%list ∧
    write_calls (apply_runes_for_champion (H := client) self champion_name w).1.2
      champion_name write ∧
    ((apply_runes_for_champion (H := client) self champion_name w).1.1 = Return true →
     write ≠ []).
Proof.
  unfold apply_runes_for_champion.
  pose proof (prepare_calls self champion_name w) as Hprepare.
  destruct (prepare (H := client) self champion_name w)
    as [[[| |rune_setup_] self1] w1] eqn:Hready; cbn [fst snd] in *.
  1,2: exists []; rewrite app_nil_r; split; [done|]; split; [by left|done].
  apply prepare_Ready_valid in Hready as [Hvalid Hheld].
  destruct (write_page_calls self1 champion_name rune_setup_ w1)
    as (c & Hc & Hwrite).
  pose proof (write_page_data (H := client) self1 champion_name rune_setup_ w1)
    as (Hdata & _).
  destruct (write_page (H := client) self1 champion_name rune_setup_ w1)
    as [[ok self2] w2].
  cbn [fst snd] in *. exists [Scripted.GetPages; c].
  split; [by rewrite Hwrite, Hprepare, <- app_assoc|]. split; [|done].
  right. exists rune_setup_, c. by rewrite Hdata.
Qed.

Lemma write_calls_count self' champion_name write :
  write_calls self' champion_name write →
  (count is_write write ≤ 1)%nat ∧ count is_cascade write = 0%nat.
Proof.
  intros [->|(rune_setup_ & c & _ & _ & [->|[id ->]] & ->)]; cbn; lia.
Qed.

Lemma cascade_calls_count self champion_name :
  count is_write (cascade_calls self champion_name) = 0%nat ∧
  (count is_cascade (cascade_calls self champion_name) ≤ 1)%nat.
Proof. unfold cascade_calls. destruct (_ !! _); cbn; lia. Qed.

Lemma apply_keeps_good self champion_name w :
  sound self → Forall good_call (Scripted.calls w) →
  Forall good_call
    (Scripted.calls (apply_runes_for_champion (H := client) self champion_name w).2).
Proof.
  intros Hsound Hgood.
  destruct (apply_calls self champion_name w) as (write & -> & Hwrite & _).
  apply (apply_sound (H := client) _ champion_name w) in Hsound as (_ & _ & Hdata).
  apply Forall_app. split; [done|]. apply Forall_app. split.
  - unfold cascade_calls. destruct (_ !! _); by repeat constructor.
  - destruct Hwrite as [->|(rune_setup_ & c & Hheld & _ & Hc & ->)]; [done|].
    apply (map_Forall_lookup_1 _ _ _ _ Hdata) in Hheld.
    constructor; [done|]. constructor; [|done].
    destruct Hc as [->|[id ->]]; by apply catalogued_body.
Qed.

Lemma fetch_keeps_good self champion_name w :
  Forall good_call (Scripted.calls w) →
  Forall good_call
    (Scripted.calls (fetch_runes_for_champion (H := client) self champion_name w).2).
Proof.
  intros Hgood. rewrite fetch_calls. apply Forall_app. split; [done|].
  by repeat constructor.
Qed.

Lemma apply_with_retry_keeps_good self champion_name w :
  sound self ∧ Forall good_call (Scripted.calls w) →
  sound (apply_with_retry (H := client) self champion_name w).1 ∧
  Forall good_call
    (Scripted.calls (apply_with_retry (H := client) self champion_name w).2).
Proof.
  intros [Hsound Hgood].
  split; [by apply apply_with_retry_sound|]. unfold apply_with_retry.
  pose proof (apply_keeps_good self champion_name w Hsound Hgood) as Hfirst.
  pose proof (apply_sound (H := client) self champion_name w Hsound) as Hsound1.
  destruct (apply_runes_for_champion (H := client) self champion_name w)
    as [[[[|]|] rm1] w1]; cbn [fst snd] in *; [done| |done].
  pose proof (fetch_keeps_good rm1 champion_name w1 Hfirst) as Hfetch.
  pose proof (fetch_sound (H := client) rm1 champion_name w1 Hsound1) as Hsound2.
  destruct (fetch_runes_for_champion (H := client) rm1 champion_name w1)
    as [[[[|]|] rm2] w2]; cbn [fst snd] in *; [|done..].
  pose proof (apply_keeps_good rm2 champion_name w2 Hsound2 Hfetch) as Hsecond.
  by destruct (apply_runes_for_champion (H := client) rm2 champion_name w2)
    as [[? ?] ?].
Qed.

(** Hovering: the handlers only look. *)
Local Ltac same_calls :=
  split; [done|]; split; [done|]; exists []; by rewrite app_nil_r.

Lemma looked_refl s : looked s s.
Proof. split; [done|]. exists []. by rewrite app_nil_r. Qed.

Lemma looked_trans s s1 s2 : looked s s1 → looked s1 s2 → looked s s2.
Proof.
  intros (Hmanager1 & new1 & Hcalls1 & Hnew1) (Hmanager2 & new2 & Hcalls2 & Hnew2).
  split; [congruence|]. exists (new1 ++ new2)%list.
  split; [by rewrite Hcalls2, Hcalls1, <- app_assoc | by apply Forall_app].
Qed.

Lemma visit_action_hover pid cell action s :
  (Lcu.actorCellId action = Some cell →
   Lcu.truthy_flag (Lcu.completed action) = false) →
  (visit_action (H := client) pid cell action s).2 = [] ∧
  looked s (visit_action (H := client) pid cell action s).1.
Proof.
  intros Hhover. unfold visit_action.
  case_bool_decide as Hcell; [|by split; [|apply looked_refl]].
  rewrite (Hhover Hcell). cbn [andb].
  destruct (Lcu.championId action) as [champion_id|]; [|by split; [|apply looked_refl]].
  destruct (champion_id =? 0); [by split; [|apply looked_refl]|].
  cbn [get_champion Scripted.client].
  assert (Hlooked : ∀ self,
    looked s {| monitor := self; manager := manager s;
                world := Scripted.record_call
                           (Scripted.GetChampion pid champion_id) (world s) |}).
  { intros self. split; [done|]. eexists. split; [reflexivity|]. by repeat constructor. }
  destruct (champions champion_id) as [cd|]; [|split; [done|apply Hlooked]].
  destruct (Lcu.champion_name cd) as [[|c rest]|]; (split; [done|apply Hlooked]).
Qed.

Lemma visit_group_hover pid cell action_group s :
  Forall (fun action =>
            Lcu.actorCellId action = Some cell →
            Lcu.truthy_flag (Lcu.completed action) = false) action_group →
  (visit_group (H := client) pid cell action_group s).2 = [] ∧
  looked s (visit_group (H := client) pid cell action_group s).1.
Proof.
  intros Hhover. revert s.
  induction Hhover as [|action rest Haction _ IH]; intros s.
  - by split; [|apply looked_refl].
  - rewrite visit_group_cons. cbn [fst snd].
    destruct (visit_action_hover pid cell action s Haction) as [-> Hfirst].
    destruct (IH (visit_action (H := client) pid cell action s).1) as [-> Hrest].
    split; [done|]. by eapply looked_trans.
Qed.

Lemma visit_groups_hover pid cell groups s :
  Forall (Forall (fun action =>
                    Lcu.actorCellId action = Some cell →
                    Lcu.truthy_flag (Lcu.completed action) = false)) groups →
  (visit_groups (H := client) pid cell groups s).2 = [] ∧
  looked s (visit_groups (H := client) pid cell groups s).1.
Proof.
  intros Hhover. revert s.
  induction Hhover as [|action_group rest Hgroup _ IH]; intros s.
  - by split; [|apply looked_refl].
  - rewrite visit_groups_cons. cbn [fst snd].
    destruct (visit_group_hover pid cell action_group s Hgroup) as [-> Hfirst].
    destruct (IH (visit_group (H := client) pid cell action_group s).1)
      as [-> Hrest].
    split; [done|]. by eapply looked_trans.
Qed.

Lemma handle_ws_message_hover s message :
  hover_message who message →
  (handle_ws_message (H := client) s message).2 = [] ∧
  manager (handle_ws_message (H := client) s message).1 = manager s ∧
  ∃ new,
    Scripted.calls (world (handle_ws_message (H := client) s message).1)
      = (Scripted.calls (world s) ++ new)%list ∧
    Forall is_lookup new.
Proof.
  intros Hhover. unfold handle_ws_message.
  destruct message as [|uri data]; [by same_calls|].
  destruct (negb _); [by same_calls|].
  destruct (_ && bool_decide _)%bool; [by same_calls|].
  cbv zeta. cbn [monitor manager world].
  set (self := if (_ && _)%bool then _ else _).
  destruct data as [data|]; [|by same_calls].
  destruct (PyStr.truthy_str (current_phase self)); [|by same_calls].
  unfold handle_session. cbn [get_current_summoner Scripted.client world].
  set (s1 := {| monitor := self; manager := manager s;
                world := Scripted.record_call Scripted.GetSummoner (world s) |}).
  assert (Hfirst : looked s s1).
  { split; [done|]. eexists. split; [reflexivity|]. by repeat constructor. }
  destruct who as [local_player|] eqn:Hwho; [|by split; [|exact Hfirst]].
  destruct (find_local_cell _ _) as [local_cell|] eqn:Hcell;
    [|by split; [|exact Hfirst]].
  cbn [monitor manager world].
  destruct (visit_groups_hover (Lcu.summonerId local_player) local_cell
              (Lcu.actions data) s1 (Hhover _ _ eq_refl Hcell)) as [Hlog Hrest].
  split; [exact Hlog|]. exact (looked_trans _ _ _ Hfirst Hrest).
Qed.
End Scripted.

End CallFacts.

(** ** Properties of the service as a whole *)

Module ServiceProperties.
Import RuneManager Resolver ResolverFacts ValidationFacts ValidationProperties
  ApplyFacts ApplyProperties ChampionSelectMonitor Session Setup Invariants
  MonitorFacts InvariantFacts CallFacts Samples.

Lemma announced_truthy message p :
  announced message = Some p → PyStr.truthy_str (Some p) = true.
Proof.
  destruct message as [|uri data]; [done|]. cbn [announced].
  destruct (bool_decide _); [|done]. cbn [andb].
  destruct (PyStr.truthy_str (data ≫= Lcu.timer_phase)) eqn:Htruthy; [|done].
  by intros <-.
Qed.

Lemma last_phase_truthy phase messages :
  PyStr.truthy_str phase = true →
  PyStr.truthy_str (last_phase phase messages) = true.
Proof.
  revert phase. induction messages as [|message rest IH]; intros phase Hphase;
    [done|].
  rewrite last_phase_cons. apply IH. unfold last_phase. cbn [foldl].
  destruct (announced message) as [p|] eqn:Hannounced; [|done].
  by apply (announced_truthy message).
Qed.

Lemma holding_sound champion_name : sound (holding champion_name).
Proof.
  split; [done|]. split; [done|].
  apply map_Forall_insert_2; [|apply map_Forall_empty].
  split; [set_solver|]. split; [set_solver|]. split; [done|].
  apply (bool_decide_unpack _). by vm_compute.
Qed.

Lemma pick_hovers phase id :
  hover_message (Some local_summoner) (pick_event phase id false).
Proof.
  intros local_player local_cell [= <-] [= <-].
  repeat constructor; by intros [=].
Qed.

Section WithOutside.
Context {World : Type} `{Outside World}.

Lemma fetch_true_held self champion_name (w : World) :
  (fetch_runes_for_champion self champion_name w).1.1 = Return true →
  is_Some (rune_data (fetch_runes_for_champion self champion_name w).1.2
             !! champion_name).
Proof.
  unfold fetch_runes_for_champion.
  destruct (run_scraper (PyStr.lower champion_name) w) as [[file| |] w'];
    cbn [fst snd]; [|done..].
  destruct (load_cases self file champion_name)
    as [Hload|(rune_setup_ & Hload & _)]; rewrite Hload; [done|].
  intros _. exists rune_setup_. cbn [snd with_setup rune_data].
  apply lookup_insert_eq.
Qed.

(** X13. A manager that starts as [__init__] leaves it stays sound
    whatever events arrive and whatever the client and the scraper
    answer: the two tables never change and every setup it holds has
    two style ids of the five and nine perk ids of the catalogue. For
    such a manager the checks that [apply_runes_for_champion] makes
    on a setup it holds always pass. *)
Theorem manager_stays_sound :
  sound RuneManager.init ∧
  (∀ (s : system World) messages,
     sound (manager s) → sound (manager (handle_all s messages).1)) ∧
  (∀ self champion_name rune_setup_ (w : World),
     sound self →
     rune_data self !! champion_name = Some rune_setup_ →
     prepare self champion_name w = (Ready rune_setup_, self, w)).
Proof.
  split; [apply sound_init|]. split.
  - intros s messages.
    apply (handle_all_handled (fun rm _ => sound rm)).
    + intros rm champion_name w. apply apply_with_retry_sound.
    + done.
    + done.
  - intros self champion_name rune_setup_ w (_ & _ & Hdata) Hheld.
    apply prepare_cached; [done|].
    apply catalogued_valid, (map_Forall_lookup_1 _ _ _ _ Hdata Hheld).
Qed.

(** X14. After any events the phase that the monitor holds is the
    last phase that an event of the session uri announced with a
    phase that is not empty, or the phase it held before if there
    was none; so a phase, once held, never becomes empty again. *)
Theorem phase_is_last_announced (s : system World) (messages : list Lcu.message) :
  current_phase (monitor (handle_all s messages).1)
    = last_phase (current_phase (monitor s)) messages ∧
  (PyStr.truthy_str (current_phase (monitor s)) = true →
   PyStr.truthy_str (current_phase (monitor (handle_all s messages).1)) = true).
Proof.
  destruct (handle_all_handled (fun _ _ => True)
              (fun _ _ _ _ => I) (fun _ _ _ _ _ => I) (fun _ _ _ => I)
              s messages) as (Hphase & _).
  split; [done|]. rewrite Hphase. apply last_phase_truthy.
Qed.

(** X15. An action id is in [processed_action_ids] after any events
    only if it was there before or a lock-in with that id was logged
    while they were handled: the set only grows by lock-ins that went
    on to the apply. *)
Theorem processed_ids_were_logged (s : system World) (messages : list Lcu.message) :
  processed_action_ids (monitor (handle_all s messages).1) ⊆
    processed_action_ids (monitor s)
      ∪ list_to_set (ids_of (handle_all s messages).2).
Proof.
  by destruct (handle_all_handled (fun _ _ => True)
                 (fun _ _ _ _ => I) (fun _ _ _ _ _ => I) (fun _ _ _ => I)
                 s messages) as (_ & Hids & _).
Qed.
End WithOutside.

(** X16. The calls of one [apply_runes_for_champion] to a scripted
    client: it fetches once, so enters the cascade of scrapers once,
    exactly when the manager holds nothing for the champion (how many
    scrapers the cascade starts is not counted); then either nothing
    more, or one read of the pages followed by one write, a [POST] or
    a [PUT], whose body is made of the valid setup that the manager
    then holds for the champion; a call that returns true has written.
    With the retry of [on_champion_locked], one lock-in makes at most
    two writes and at most two fetches. *)
Theorem apply_calls_bounded (who : option Lcu.summoner)
    (champions : Z → option Lcu.champion_data)
    (self : RuneManager.t) (champion_name : string) (w : Scripted.world) :
  let once :=
    apply_runes_for_champion (H := Scripted.client who champions)
      self champion_name w in
  let retried :=
    apply_with_retry (H := Scripted.client who champions) self champion_name w in
  (∃ write,
     Scripted.calls once.2
       = (Scripted.calls w ++ cascade_calls self champion_name ++ write)%list ∧
     write_calls once.1.2 champion_name write ∧
     (once.1.1 = Return true → write ≠ [])) ∧
  (∃ new,
     Scripted.calls retried.2 = (Scripted.calls w ++ new)%list ∧
     (count is_write new ≤ 2)%nat ∧
     (count is_cascade new ≤ 2)%nat).
Proof.
  cbv zeta. split; [apply apply_calls|].
  unfold apply_with_retry.
  destruct (apply_calls who champions self champion_name w)
    as (write1 & Hcalls1 & [Hwrites1 Hscrapes1]%write_calls_count & _).
  destruct (cascade_calls_count self champion_name) as [Hwrites0 Hscrapes0].
  assert (Hfirst : (count is_write (cascade_calls self champion_name ++ write1) ≤ 1
                    ∧ count is_cascade (cascade_calls self champion_name ++ write1) ≤ 1)%nat)
    by (rewrite !count_app; lia).
  destruct (apply_runes_for_champion (H := Scripted.client who champions)
              self champion_name w) as [[[[|]|] rm1] w1]; cbn [fst snd] in *.
  1,3: eexists; split; [exact Hcalls1|lia].
  pose proof (fetch_calls who champions rm1 champion_name w1) as Hcalls2.
  pose proof (fetch_true_held (H := Scripted.client who champions)
                rm1 champion_name w1) as Hheld.
  destruct (fetch_runes_for_champion (H := Scripted.client who champions)
              rm1 champion_name w1) as [[[[|]|] rm2] w2]; cbn [fst snd] in *.
  2,3: eexists; split;
    [by rewrite Hcalls2, Hcalls1, <- app_assoc | rewrite !count_app; cbn; lia].
  destruct (Hheld eq_refl) as [held Hheld2].
  destruct (apply_calls who champions rm2 champion_name w2)
    as (write3 & Hcalls3 & [Hwrites3 Hscrapes3]%write_calls_count & _).
  unfold cascade_calls in Hcalls3. rewrite Hheld2 in Hcalls3.
  destruct (apply_runes_for_champion (H := Scripted.client who champions)
              rm2 champion_name w2) as [[fetched3 rm3] w3]; cbn [fst snd] in *.
  eexists. split.
  - by rewrite Hcalls3, Hcalls2, Hcalls1, <- !app_assoc.
  - rewrite !count_app in *. cbn. lia.
Qed.

(** X17. The service never writes a page that is not whole: started
    with a sound manager, whatever events arrive and whatever the
    scripted client and the scraper answer, every [PUT] and [POST] of
    a page carries a name that starts with [[AUTO]], [current] true,
    two style ids of the five and nine perk ids of the catalogue. *)
Theorem writes_are_well_formed (who : option Lcu.summoner)
    (champions : Z → option Lcu.champion_data)
    (s : system Scripted.world) (messages : list Lcu.message) :
  sound (manager s) →
  Forall good_call (Scripted.calls (world s)) →
  Forall good_call
    (Scripted.calls
       (world (handle_all (H := Scripted.client who champions) s messages).1)).
Proof.
  intros Hsound Hgood.
  apply (handle_all_handled (H := Scripted.client who champions)
           (fun rm w => sound rm ∧ Forall good_call (Scripted.calls w)));
    [| | |done].
  - intros rm champion_name w. apply apply_with_retry_keeps_good.
  - intros rm summoner champion_id w [? ?]. split; [done|].
    apply Forall_app. split; [done|]. by repeat constructor.
  - intros rm w [? ?]. split; [done|].
    apply Forall_app. split; [done|]. by repeat constructor.
Qed.

Lemma writes_are_well_formed_witness :
  Forall good_call
    (Scripted.calls
       (world (handle_all (H := ahri_client) fresh_system
                 [pick_event "BAN_PICK" 5 true]).1)).
Proof.
  apply (writes_are_well_formed (Some local_summoner)
           (fun _ => Some {| Lcu.champion_name := Some "Ahri" |})
           fresh_system [pick_event "BAN_PICK" 5 true]).
  - apply holding_sound.
  - constructor.
Defined.

(** X18. Hovering only looks: while no action of the local player in
    the events is completed, no lock-in is logged, the manager stays
    as it is, and the scripted client is only asked for the summoner
    and for champions, so no page is read or written and the scraper
    is not run. *)
Theorem hovering_only_looks (who : option Lcu.summoner)
    (champions : Z → option Lcu.champion_data)
    (s : system Scripted.world) (messages : list Lcu.message) :
  Forall (hover_message who) messages →
  let after := handle_all (H := Scripted.client who champions) s messages in
  after.2 = [] ∧
  manager after.1 = manager s ∧
  ∃ new,
    Scripted.calls (world after.1) = (Scripted.calls (world s) ++ new)%list ∧
    Forall is_lookup new.
Proof.
  intros Hhover. cbv zeta. revert s.
  induction Hhover as [|message rest Hmessage _ IH]; intros s.
  - split; [done|]. split; [done|]. exists []. by rewrite app_nil_r.
  - rewrite handle_all_cons. cbn [fst snd].
    destruct (handle_ws_message_hover who champions s message Hmessage)
      as (Hlog1 & Hmanager1 & new1 & Hcalls1 & Hnew1).
    destruct (IH (handle_ws_message (H := Scripted.client who champions)
                    s message).1)
      as (Hlog2 & Hmanager2 & new2 & Hcalls2 & Hnew2).
    split; [by rewrite Hlog1, Hlog2|]. split; [congruence|].
    exists (new1 ++ new2)%list.
    split; [by rewrite Hcalls2, Hcalls1, <- app_assoc | by apply Forall_app].
Qed.

Lemma hovering_only_looks_witness :
  let after :=
    handle_all (H := ahri_client) fresh_system
      [pick_event "BAN_PICK" 5 false; pick_event "BAN_PICK" 5 false] in
  after.2 = [] ∧
  manager after.1 = manager fresh_system ∧
  ∃ new,
    Scripted.calls (world after.1)
      = (Scripted.calls (world fresh_system) ++ new)%list ∧
    Forall is_lookup new.
Proof.
  apply (hovering_only_looks (Some local_summoner)
           (fun _ => Some {| Lcu.champion_name := Some "Ahri" |})
           fresh_system
           [pick_event "BAN_PICK" 5 false; pick_event "BAN_PICK" 5 false]).
  constructor; [apply pick_hovers|]. constructor; [apply pick_hovers|].
  constructor.
Defined.

Section ChampionChange.
Context {World : Type} `{Outside World}.

(** X19. A change of champion forgets the processed ids. When a
    completed action of the local player names a champion other than
    the current one, the set of processed ids is cleared before the
    check, so the lock-in is handled even if its id was processed
    before, and afterwards the set holds that id alone. *)
Theorem champion_change_forgets_processed (s : system World)
    (local_player_id : option Z) (local_cell : Z) (action : Lcu.action)
    (champion_id : Z) (name : string) :
  Lcu.actorCellId action = Some local_cell →
  Lcu.championId action = Some champion_id →
  champion_id ≠ 0 →
  (get_champion local_player_id champion_id (world s)).1
    = Some {| Lcu.champion_name := Some name |} →
  name ≠ "" →
  current_champion (monitor s) ≠ Some name →
  Lcu.truthy_flag (Lcu.completed action) = true →
  let visited := visit_action local_player_id local_cell action s in
  visited.2 = [(name, Lcu.action_id action)] ∧
  current_champion (monitor visited.1) = Some name ∧
  processed_action_ids (monitor visited.1) = {[ Lcu.action_id action ]}.
Proof.
  intros Hcell Hchampion Hnonzero Hanswer Hname Hother Hcompleted. cbv zeta.
  unfold visit_action. rewrite bool_decide_eq_true_2 by done.
  rewrite Hchampion. destruct (Z.eqb_spec champion_id 0) as [|_]; [done|].
  destruct (get_champion local_player_id champion_id (world s)) as [answer w].
  cbn [fst] in Hanswer. subst answer. cbn [Lcu.champion_name].
  destruct name as [|c rest]; [done|].
  cbv zeta. cbn [monitor manager world].
  rewrite (bool_decide_eq_false_2 (Some (String c rest) = current_champion (monitor s)))
    by congruence.
  rewrite Hcompleted. cbn [change_champion processed_action_ids].
  rewrite (bool_decide_eq_false_2 (Lcu.action_id action ∈ (∅ : gset (option Z))))
    by set_solver.
  cbn [negb andb]. unfold on_champion_locked.
  cbn [monitor manager world change_champion processed_action_ids].
  rewrite (bool_decide_eq_false_2 (Lcu.action_id action ∈ (∅ : gset (option Z))))
    by set_solver.
  destruct (apply_with_retry (manager s) (String c rest) w) as [rm w'].
  cbn [fst snd monitor add_processed current_champion processed_action_ids].
  split; [done|]. split; [done|].
  cbn [change_champion processed_action_ids]. by rewrite (right_id_L ∅ (∪)).
Qed.
End ChampionChange.

Lemma champion_change_forgets_processed_witness :
  let s := {| monitor :=
                add_processed (Some 5)
                  (change_champion "Lee Sin" ChampionSelectMonitor.init);
              manager := holding "Ahri";
              world := world fresh_system |} in
  let action := {| Lcu.actorCellId := Some 0; Lcu.championId := Some 103;
                   Lcu.action_id := Some 5; Lcu.completed := Some true |} in
  let visited := visit_action (H := two_champions_client) (Some 11) 0 action s in
  visited.2 = [("Ahri", Some 5)] ∧
  current_champion (monitor visited.1) = Some "Ahri" ∧
  processed_action_ids (monitor visited.1) = {[ Some 5 ]}.
Proof.
  intros s action.
  apply (champion_change_forgets_processed (H := two_champions_client)
           s (Some 11) 0 action 103 "Ahri").
  - reflexivity.
  - reflexivity.
  - lia.
  - reflexivity.
  - discriminate.
  - discriminate.
  - reflexivity.
Defined.

End ServiceProperties.

(** ** The loop of the service *)

Module LoopProperties.
Import LCUConnection Discovery DiscoveryFacts MoreSamples AutoRunesService.

Lemma iteration_balance o self :
  (length (List.filter is_started (iteration o self).2) + held self
   = length (List.filter is_stopped (iteration o self).2)
     + held (iteration o self).1)%nat.
Proof.
  unfold iteration, held. destruct self as [c held_monitor flag].
  cbn [lcu monitor running with_lcu].
  destruct (negb (connected c)).
  - destruct (find_league_client o c) as [[|] c']; [|done].
    by destruct held_monitor.
  - destruct (match process_ c with
              | Some p => negb (is_running o p)
              | None => true
              end); [|done].
    by destruct held_monitor.
Qed.

Lemma iterations_cons others o rest self :
  iterations ((others, o) :: rest) self =
    ((iterations rest (iteration o (with_lcu (others (lcu self)) self)).1).1,
     ((iteration o (with_lcu (others (lcu self)) self)).2
        ++ (iterations rest
              (iteration o (with_lcu (others (lcu self)) self)).1).2)%list).
Proof.
  cbn [iterations].
  destruct (iteration o (with_lcu (others (lcu self)) self)) as [self1 log1].
  cbn [fst snd]. by destruct (iterations rest self1).
Qed.

(** X20. The loop of [start] never holds two monitors, whatever the
    other threads do to the shared connection between its rounds: it
    starts the thread of a new monitor only when it holds none and
    stops one only when it holds one, so after any rounds the threads
    started, with the monitor held before, are as many as the monitors
    stopped, with the monitor held now. *)
Theorem loop_holds_one_monitor
    (rounds : list ((LCUConnection.t → LCUConnection.t) * os)) (self : AutoRunesService.t) :
  (length (List.filter is_started (iterations rounds self).2) + held self
   = length (List.filter is_stopped (iterations rounds self).2)
     + held (iterations rounds self).1)%nat.
Proof.
  revert self. induction rounds as [|[others o] rest IH]; intros self; [done|].
  rewrite iterations_cons. cbn [fst snd].
  rewrite !List.filter_app, !length_app.
  pose proof (iteration_balance o (with_lcu (others (lcu self)) self)) as Hfirst.
  pose proof (IH (iteration o (with_lcu (others (lcu self)) self)).1) as Hrest.
  change (held (with_lcu (others (lcu self)) self)) with (held self) in Hfirst.
  lia.
Qed.

(** X21. A client that is closed and opened again is picked up in two
    rounds. When the loop holds a monitor for a connected client whose
    process is no longer running, the first round marks the
    connection as not connected, also for the event channel, and
    stops the monitor; if the next round then finds a usable client
    process, it connects to the first one and starts the thread of a
    fresh monitor. *)
Theorem restart_is_picked_up (o1 o2 : os) (self : AutoRunesService.t)
    (old : ChampionSelectMonitor.t) :
  connected (lcu self) = true →
  monitor self = Some old →
  ¬ still_running o1 (lcu self) →
  Exists usable (process_iter o2) →
  let closed := iteration o1 self in
  let opened := iteration o2 closed.1 in
  closed.2 = [Stopped] ∧
  connected (lcu closed.1) = false ∧
  ws_connected (lcu closed.1) = false ∧
  monitor closed.1 = None ∧
  opened.2 = [Started] ∧
  monitor opened.1 = Some ChampionSelectMonitor.init ∧
  ∃ before proc after token_arg port_arg,
    process_iter o2 = (before ++ proc :: after)%list ∧
    usable proc ∧ Forall (fun q => ¬ usable q) before ∧
    first_with_prefix token_flag (cmdline proc) = Some token_arg ∧
    first_with_prefix port_flag (cmdline proc) = Some port_arg ∧
    lcu opened.1
      = discovered proc token_arg port_arg (disconnect (lcu self)).
Proof.
  intros Hconnected Hmonitor Hgone Hclient. cbv zeta.
  assert (Hclosed : iteration o1 self =
            ({| lcu := disconnect (lcu self); monitor := None;
                running := running self |}, [Stopped])).
  { unfold iteration. rewrite Hconnected. cbn [negb].
    destruct (match process_ (lcu self) with
              | Some p => negb (is_running o1 p)
              | None => true
              end) eqn:Hprocess.
    - cbn [with_lcu monitor lcu running]. by rewrite Hmonitor.
    - exfalso. apply Hgone. split; [done|].
      destruct (process_ (lcu self)) as [p|]; [|done].
      exists p. split; [done|]. by apply negb_false_iff. }
  rewrite Hclosed. cbn [fst snd lcu monitor].
  repeat (split; [done|]).
  apply first_usable_split in Hclient
    as (before & proc & after & Hprocs & Husable & Hnone).
  pose proof Husable as (Hname & [token_arg Htoken] & [port_arg Hport]).
  unfold iteration. cbn [lcu monitor running disconnect connected negb with_lcu].
  unfold find_league_client. cbn [connected andb disconnect].
  rewrite Hprocs, (scan_processes_first _ _ _ token_arg port_arg) by done.
  cbn [fst snd lcu monitor with_lcu].
  split; [done|]. split; [done|].
  by exists before, proc, after, token_arg, port_arg.
Qed.

Lemma restart_is_picked_up_witness :
  let self := {| lcu := discovered half_client "--remoting-auth-token=old"
                          "--app-port=1" LCUConnection.init;
                 monitor := Some ChampionSelectMonitor.init;
                 running := true |} in
  let o1 := {| process_iter := []; is_running := fun _ => false |} in
  let o2 := three_processes in
  let closed := iteration o1 self in
  let opened := iteration o2 closed.1 in
  closed.2 = [Stopped] ∧
  connected (lcu closed.1) = false ∧
  ws_connected (lcu closed.1) = false ∧
  monitor closed.1 = None ∧
  opened.2 = [Started] ∧
  monitor opened.1 = Some ChampionSelectMonitor.init ∧
  ∃ before proc after token_arg port_arg,
    process_iter o2 = (before ++ proc :: after)%list ∧
    usable proc ∧ Forall (fun q => ¬ usable q) before ∧
    first_with_prefix token_flag (cmdline proc) = Some token_arg ∧
    first_with_prefix port_flag (cmdline proc) = Some port_arg ∧
    lcu opened.1
      = discovered proc token_arg port_arg (disconnect (lcu self)).
Proof.
  intros self o1 o2.
  apply (restart_is_picked_up o1 o2 self ChampionSelectMonitor.init).
  - reflexivity.
  - reflexivity.
  - intros (_ & p & [= <-] & Hrunning). discriminate Hrunning.
  - apply Exists_cons_tl, Exists_cons_tl, Exists_cons_hd.
    split; [reflexivity|]. split; by eexists.
Defined.

End LoopProperties.
